(** * e2e_demo: the sync tool and the demo API, embedded and verified

    Shallow embedding of [e2e_demo/sync_tool/sync.py] (retry executor,
    paginated fetcher, reconciler, dry-run reporter) and of
    [e2e_demo/api/app.py] (the in-memory source and sink services).

    Conventions.
    - Python [int] is [Z]; Python [float] is IEEE 754 binary64, taken from
      the Standard Library's executable specification [SpecFloat].
    - Code that raises returns [Raise x]; code that returns, [Return a].
    - Effects are threaded through an explicit environment [Env]: the state
      of the remote services, the number of random draws made so far, the
      chronological trace of network calls and sleeps, and the report file.
    - What the tool calls but does not define (the HTTP client, [float()],
      [random.random()], [time.sleep()]) is gathered in a [Runtime]. *)

From Stdlib Require Import ZArith Lia SpecFloat Ascii String.
From stdpp Require Import base option list gmap strings pretty sorting.

Local Open Scope Z_scope.

(** ** Python floats *)

Abbreviation float := spec_float.

Definition prec : Z := 53.
Definition emax : Z := 1024.

Definition fmul : float -> float -> float := SFmul prec emax.
Definition fadd : float -> float -> float := SFadd prec emax.
Definition fltb : float -> float -> bool := SFltb.
Definition fleb : float -> float -> bool := SFleb.

(** [m * 2^e], rounded to nearest even. *)
Definition fdyadic (m e : Z) : float := binary_normalize prec emax m e false.

Definition f_zero : float := S754_zero false.
Definition f_half : float := Eval vm_compute in fdyadic 1 (-1).       (* 0.5 *)
Definition f_one : float := Eval vm_compute in fdyadic 1 0.           (* 1.0 *)
Definition f_1_5 : float := Eval vm_compute in fdyadic 3 (-1).        (* 1.5 *)
Definition f_0_4 : float := S754_finite false 7205759403792794 (-54). (* 0.4 *)
Definition f_5 : float := Eval vm_compute in fdyadic 5 0.             (* 5.0 *)

(** [float(n)] for a Python int [n]; [None] is OverflowError ("int too
    large to convert to float"). *)
Definition float_of_int (n : Z) : option float :=
  match fdyadic n 0 with
  | S754_infinity _ => None
  | f => Some f
  end.

(** The right operand of [base * (2 ** k)] as a float.  For [k >= 0] the
    power is an int that the multiplication converts; for [k < 0] Python's
    [int ** int] already yields a float. *)
Definition pow2_operand (k : Z) : option float :=
  if 0 <=? k then float_of_int (2 ^ k) else Some (fdyadic 1 k).

(** Python's [min(a, b)]: [b] when [b < a], otherwise [a]. *)
Definition py_min (a b : float) : float := if fltb b a then b else a.

(** ** Wire data *)

(** A record as both services exchange it: a dict with the three keys
    ["external_id"], ["name"], ["value"]. *)
Record Item := mkItem {
  external_id : string;
  name : string;
  value : Z;
}.

(** The two requests the tool issues, with what varies in them.
    [GET_source_items page limit] is
    [GET {base_url}/source/items?page={page}&limit={limit}];
    [POST_sink_items key payload] is [POST {base_url}/sink/items] with the
    header [Idempotency-Key: key] and the JSON body [payload]. *)
Inductive Request :=
| GET_source_items (page limit : Z)
| POST_sink_items (idempotency_key : string) (payload : Item).

(** What [resp.json()] holds, as far as the tool looks at it. *)
Inductive Body :=
| JsonPage (items : list Item) (next_page : option Z)
| JsonStatus (status : string)
| JsonOther.

Record Response := mkResponse {
  status_code : Z;
  headers : gmap string string;
  body : Body;
}.

Inductive Exc :=
| TimeoutException                (* httpx.TimeoutException *)
| NetworkError                    (* httpx.NetworkError *)
| HTTPStatusError (resp : Response)
| ValueError
| OverflowError
| KeyError
| RuntimeError
| OtherError (what : string).

Inductive Result (A : Type) :=
| Return (a : A)
| Raise (x : Exc).
Arguments Return {A} a.
Arguments Raise {A} x.

(** [RetryPolicy] dataclass. *)
Record RetryPolicy := mkRetryPolicy {
  max_attempts : Z;
  base_delay_s : float;
  max_delay_s : float;
}.

(** [RetryPolicy()] *)
Definition RetryPolicy_default : RetryPolicy :=
  {| max_attempts := 6; base_delay_s := f_0_4; max_delay_s := f_5 |}.

(** The dry-run report written to [artifacts/superpowers/report.json]. *)
Record Report := mkReport {
  report_run_id : string;
  report_timestamp : string;
  report_count : Z;
  report_external_ids : list string;
}.

(** ** Runtime: what the tool calls and the repository does not define *)

Inductive SleepFault := SleepValueError | SleepOverflowError.

Definition exc_of_sleep_fault (f : SleepFault) : Exc :=
  match f with
  | SleepValueError => ValueError
  | SleepOverflowError => OverflowError
  end.

Record Runtime := mkRuntime {
  (** state of the remote services and of the network *)
  World : Type;
  (** [client.request(method, url, headers=..., json=...)] *)
  client_request : Request -> World -> Result Response * World;
  (** [float(s)] on a string; [None] is ValueError *)
  float_of_str : string -> option float;
  (** the [k]-th value [random.random()] returns in this process *)
  random_random : nat -> float;
  (** [time.sleep(secs)]: [Some f] when the call raises instead of sleeping *)
  sleep_fault : float -> option SleepFault;
}.

(** One observable step of a run. *)
Inductive Event :=
| EvAttempt (attempt : Z) (req : Request) (outcome : Result Response)
| EvSleep (secs : float).

(** ** The sync tool *)

Section SyncTool.

Context (rt : Runtime).

Record Env := mkEnv {
  world : World rt;
  draws : nat;
  trace : list Event;
  report_file : option Report;
}.

Definition M (A : Type) : Type := Env -> Result A * Env.

Definition ret {A} (a : A) : M A := fun e => (Return a, e).

Definition raise {A} (x : Exc) : M A := fun e => (Raise x, e).

Definition bind {A B} (m : M A) (k : A -> M B) : M B :=
  fun e =>
    match m e with
    | (Return a, e') => k a e'
    | (Raise x, e') => (Raise x, e')
    end.

Notation "x <- m ;; k" := (bind m (fun x => k))
  (at level 100, m at next level, k at level 200, right associativity).
Notation "m ;; k" := (bind m (fun _ => k))
  (at level 100, k at level 200, right associativity).

Definition emit (ev : Event) (e : Env) : Env :=
  {| world := world e; draws := draws e; trace := trace e ++ [ev];
     report_file := report_file e |}.

(** [random.random()] *)
Definition random : M float :=
  fun e =>
    (Return (random_random rt (draws e)),
     {| world := world e; draws := S (draws e); trace := trace e;
        report_file := report_file e |}).

(** [time.sleep(secs)] *)
Definition time_sleep (secs : float) : M unit :=
  fun e =>
    match sleep_fault rt secs with
    | Some f => (Raise (exc_of_sleep_fault f), e)
    | None => (Return tt, emit (EvSleep secs) e)
    end.

(** [client.request(...)] as attempt number [attempt]; the outcome is
    recorded whether it is a response or an exception. *)
Definition do_request (attempt : Z) (req : Request) : Env -> Result Response * Env :=
  fun e =>
    let '(out, w) := client_request rt req (world e) in
    (out,
     {| world := w; draws := draws e;
        trace := trace e ++ [EvAttempt attempt req out];
        report_file := report_file e |}).

(** [backoff(attempt, base, cap)] *)
Definition backoff (attempt : Z) (base cap : float) : M float :=
  match pow2_operand (attempt - 1) with
  | None => raise OverflowError
  | Some p =>
      let delay := py_min cap (fmul base p) in
      r <- random ;;
      ret (fmul delay (fadd f_half r))
  end.

(** [should_retry(status_code)] *)
Definition should_retry (status_code : Z) : bool :=
  if status_code =? 429 then true
  else if (500 <=? status_code) && (status_code <=? 599) then true
  else if status_code =? 408 then true
  else false.

(** [resp.raise_for_status()] of httpx: returns on a 2xx status, raises
    [HTTPStatusError] on any other. *)
Definition raise_for_status (resp : Response) : M unit :=
  if (200 <=? status_code resp) && (status_code resp <=? 299)
  then ret tt
  else raise (HTTPStatusError resp).

(** The two exception classes of the [except] clause. *)
Definition is_transient (x : Exc) : bool :=
  match x with
  | TimeoutException | NetworkError => true
  | _ => false
  end.

(** The value given to [time.sleep] after a retryable response. *)
Definition retry_sleep_s (resp : Response) (attempt : Z) (retry : RetryPolicy) : M float :=
  match headers resp !! "Retry-After" with
  | Some retry_after =>
      if bool_decide (retry_after = "")
      then backoff attempt (base_delay_s retry) (max_delay_s retry)
      else
        match float_of_str rt retry_after with
        | Some sleep_s => ret sleep_s
        | None => backoff attempt (base_delay_s retry) (max_delay_s retry)
        end
  | None => backoff attempt (base_delay_s retry) (max_delay_s retry)
  end.

(** The [for attempt in range(1, retry.max_attempts + 1)] loop of
    [request_with_retries], entered with [remaining] iterations to go.
    Only [client.request] can raise one of the two classes the [except]
    clause catches: [backoff] raises OverflowError, [time.sleep] ValueError
    or OverflowError, [raise_for_status] HTTPStatusError. *)
Fixpoint retry_loop (req : Request) (retry : RetryPolicy)
    (remaining : nat) (attempt : Z) (last_exc : option Exc) : M Response :=
  match remaining with
  | O =>
      match last_exc with
      | Some x => raise x
      | None => raise RuntimeError
      end
  | S remaining' =>
      fun e =>
        match do_request attempt req e with
        | (Return resp, e1) =>
            if status_code resp <? 400 then (Return resp, e1)
            else if should_retry (status_code resp) && (attempt <? max_attempts retry)
            then
              (sleep_s <- retry_sleep_s resp attempt retry ;;
               time_sleep sleep_s ;;
               retry_loop req retry remaining' (attempt + 1) last_exc) e1
            else
              (raise_for_status resp ;; ret resp) e1
        | (Raise x, e1) =>
            if is_transient x then
              if max_attempts retry <=? attempt then (Raise x, e1)
              else
                (d <- backoff attempt (base_delay_s retry) (max_delay_s retry) ;;
                 time_sleep d ;;
                 retry_loop req retry remaining' (attempt + 1) (Some x)) e1
            else (Raise x, e1)
        end
  end.

(** [request_with_retries(client, method, url, headers=, json=, retry=, run_id=)] *)
Definition request_with_retries (req : Request) (retry : RetryPolicy) : M Response :=
  retry_loop req retry (Z.to_nat (max_attempts retry)) 1 None.

Definition page_size : Z := 10.
Definition max_pages : Z := 100.

(** The condition [page and page <= max_pages] of the fetch loop. *)
Definition page_continues (page : option Z) : bool :=
  match page with
  | Some p => negb (p =? 0) && (p <=? max_pages)
  | None => false
  end.

(** [limit is not None and len(items) >= limit] *)
Definition limit_reached (limit : option Z) (items : list Item) : bool :=
  match limit with
  | Some l => l <=? Z.of_nat (length items)
  | None => false
  end.

(** Python's [items[:n]]. *)
Definition py_slice_to {A} (items : list A) (n : Z) : list A :=
  if 0 <=? n then take (Z.to_nat n) items
  else take (length items - Z.to_nat (- n))%nat items.

(** The [while] loop of [fetch_all_source_items].  It has no structural
    bound, so it runs on [fuel]: [None] means the loop is still running
    when the fuel is spent; [Some r] is what the loop leaves in [items]
    when it exits, or the exception that ended it. *)
Fixpoint fetch_loop (fuel : nat) (limit : option Z) (page : option Z)
    (items : list Item) (e : Env) : option (Result (list Item)) * Env :=
  match page with
  | Some p =>
      if page_continues page then
        match fuel with
        | O => (None, e)
        | S fuel' =>
            match request_with_retries (GET_source_items p page_size) RetryPolicy_default e with
            | (Raise x, e1) => (Some (Raise x), e1)
            | (Return resp, e1) =>
                match body resp with
                | JsonPage batch next_page =>
                    let items' := items ++ batch in
                    if limit_reached limit items' then (Some (Return items'), e1)
                    else fetch_loop fuel' limit next_page items' e1
                | _ => (Some (Raise KeyError), e1)
                end
            end
        end
      else (Some (Return items), e)
  | None => (Some (Return items), e)
  end.

(** [fetch_all_source_items(client, base_url, run_id=, limit=)] *)
Definition fetch_all_source_items (fuel : nat) (limit : option Z) (e : Env)
  : option (Result (list Item)) * Env :=
  match fetch_loop fuel limit (Some 1) [] e with
  | (Some (Return items), e1) =>
      match limit with
      | Some l => (Some (Return (py_slice_to items l)), e1)
      | None => (Some (Return items), e1)
      end
  | r => r
  end.

(** The dict [upsert_sink_items] returns. *)
Record Stats := mkStats {
  created_count : Z;
  updated_count : Z;
  failed_count : Z;
}.

(** The mapping layer: the payload built from a source item. *)
Definition payload_of (it : Item) : Item :=
  {| external_id := external_id it; name := name it; value := value it |}.

(** [f"sync:{payload['external_id']}"] *)
Definition idempotency_key_of (payload : Item) : string :=
  "sync:" +:+ external_id payload.

Definition upsert_request (it : Item) : Request :=
  POST_sink_items (idempotency_key_of (payload_of it)) (payload_of it).

(** [resp.json()["status"]] *)
Definition json_status (resp : Response) : M string :=
  match body resp with
  | JsonStatus s => ret s
  | _ => raise KeyError
  end.

(** The body of the [try] block of [upsert_sink_items], up to the status
    it reads from the response. *)
Definition upsert_try (it : Item) : M string :=
  resp <- request_with_retries (upsert_request it) RetryPolicy_default ;;
  json_status resp.

(** One iteration of the [for it in source_items] loop: the [try] block
    and its [except Exception] handler, applied to the three counters. *)
Definition upsert_one (it : Item) (st : Stats) (e : Env) : Stats * Env :=
  match upsert_try it e with
  | (Return status, e1) =>
      if bool_decide (status = "created")
      then ({| created_count := created_count st + 1;
               updated_count := updated_count st;
               failed_count := failed_count st |}, e1)
      else ({| created_count := created_count st;
               updated_count := updated_count st + 1;
               failed_count := failed_count st |}, e1)
  | (Raise _, e1) =>
      ({| created_count := created_count st;
          updated_count := updated_count st;
          failed_count := failed_count st + 1 |}, e1)
  end.

Fixpoint upsert_loop (source_items : list Item) (st : Stats) (e : Env) : Stats * Env :=
  match source_items with
  | [] => (st, e)
  | it :: rest =>
      let '(st1, e1) := upsert_one it st e in
      upsert_loop rest st1 e1
  end.

(** [upsert_sink_items(client, base_url, source_items, run_id=)] *)
Definition upsert_sink_items (source_items : list Item) (e : Env) : Stats * Env :=
  upsert_loop source_items
    {| created_count := 0; updated_count := 0; failed_count := 0 |} e.

(** The command line of [main]. *)
Record Args := mkArgs {
  dry_run : bool;
  limit : option Z;
}.

(** The report [main] builds in dry-run mode. *)
Definition build_report (run_id timestamp : string) (items : list Item) : Report :=
  {| report_run_id := run_id;
     report_timestamp := timestamp;
     report_count := Z.of_nat (length items);
     report_external_ids := map external_id (take 20 items) |}.

Definition write_report (r : Report) (e : Env) : Env :=
  {| world := world e; draws := draws e; trace := trace e;
     report_file := Some r |}.

(** [main()], given the command line, the [run_id] drawn by [uuid4] and
    the formatted clock reading.  The result is the value [main] returns
    (the exit code), or the exception that leaves it. *)
Definition main (fuel : nat) (args : Args) (run_id timestamp : string) (e : Env)
  : option (Result Z) * Env :=
  match fetch_all_source_items fuel (limit args) e with
  | (None, e1) => (None, e1)
  | (Some (Raise x), e1) => (Some (Raise x), e1)
  | (Some (Return items), e1) =>
      if dry_run args then
        (Some (Return 0), write_report (build_report run_id timestamp items) e1)
      else
        let '(stats, e2) := upsert_sink_items items e1 in
        (Some (Return (if failed_count stats =? 0 then 0 else 2)), e2)
  end.

End SyncTool.

Arguments mkEnv {rt}.
Arguments world {rt}.
Arguments draws {rt}.
Arguments trace {rt}.
Arguments report_file {rt}.
Arguments ret {rt A}.
Arguments raise {rt A}.
Arguments bind {rt A B}.

(** ** The demo API ([e2e_demo/api/app.py]) *)

(** Python's [l[start:stop]], negative indices included. *)
Definition clamp_index (len i : Z) : Z :=
  if i <? 0 then Z.max 0 (i + len) else Z.min i len.

Definition py_slice {A} (l : list A) (start stop : Z) : list A :=
  let n := Z.of_nat (length l) in
  let lo := clamp_index n start in
  let hi := clamp_index n stop in
  take (Z.to_nat (hi - lo)) (drop (Z.to_nat lo) l).

Module App.

(** The module-level globals. *)
Record State := mkState {
  SOURCE_ITEMS : list Item;
  SINK_ITEMS_BY_EXTERNAL_ID : gmap string Item;
  FAIL_SOURCE_PAGE_2_ONCE : bool;
  sink_write_calls : Z;
}.

Definition SINK_429_EVERY_N_CALLS : Z := 5.

(** The state of a freshly imported module, before [startup]. *)
Definition initial : State :=
  {| SOURCE_ITEMS := [];
     SINK_ITEMS_BY_EXTERNAL_ID := ∅;
     FAIL_SOURCE_PAGE_2_ONCE := true;
     sink_write_calls := 0 |}.

(** [seed_source()] *)
Definition seed_source (st : State) : State :=
  {| SOURCE_ITEMS :=
       map (fun i : Z =>
              {| external_id := "item-" +:+ pretty i;
                 name := "Item " +:+ pretty i;
                 value := i |})
           (map Z.of_nat (seq 1 25));
     SINK_ITEMS_BY_EXTERNAL_ID := SINK_ITEMS_BY_EXTERNAL_ID st;
     FAIL_SOURCE_PAGE_2_ONCE := FAIL_SOURCE_PAGE_2_ONCE st;
     sink_write_calls := sink_write_calls st |}.

(** A response FastAPI builds from a returned dict. *)
Definition ok (b : Body) : Response :=
  {| status_code := 200; headers := ∅; body := b |}.

(** A response FastAPI builds from a raised [HTTPException]. *)
Definition http_exception (code : Z) (hdrs : gmap string string) : Response :=
  {| status_code := code; headers := hdrs; body := JsonOther |}.

(** [source_items(page, limit)] *)
Definition source_items (page limit : Z) (st : State) : Response * State :=
  if (page =? 2) && FAIL_SOURCE_PAGE_2_ONCE st then
    (http_exception 500 ∅,
     {| SOURCE_ITEMS := SOURCE_ITEMS st;
        SINK_ITEMS_BY_EXTERNAL_ID := SINK_ITEMS_BY_EXTERNAL_ID st;
        FAIL_SOURCE_PAGE_2_ONCE := false;
        sink_write_calls := sink_write_calls st |})
  else
    let start := (page - 1) * limit in
    let stop := start + limit in
    let items := py_slice (SOURCE_ITEMS st) start stop in
    let next_page :=
      if stop <? Z.of_nat (length (SOURCE_ITEMS st)) then Some (page + 1) else None in
    (ok (JsonPage items next_page), st).

(** [sink_upsert(payload, idempotency_key)]; the key is accepted and not
    looked at. *)
Definition sink_upsert (payload : Item) (idempotency_key : option string)
    (st : State) : Response * State :=
  let calls := sink_write_calls st + 1 in
  if (0 <? SINK_429_EVERY_N_CALLS) && (calls mod SINK_429_EVERY_N_CALLS =? 0) then
    (http_exception 429 {[ "Retry-After" := "1" ]},
     {| SOURCE_ITEMS := SOURCE_ITEMS st;
        SINK_ITEMS_BY_EXTERNAL_ID := SINK_ITEMS_BY_EXTERNAL_ID st;
        FAIL_SOURCE_PAGE_2_ONCE := FAIL_SOURCE_PAGE_2_ONCE st;
        sink_write_calls := calls |})
  else
    let created :=
      bool_decide (SINK_ITEMS_BY_EXTERNAL_ID st !! external_id payload = None) in
    (ok (JsonStatus (if created then "created" else "updated")),
     {| SOURCE_ITEMS := SOURCE_ITEMS st;
        SINK_ITEMS_BY_EXTERNAL_ID :=
          <[external_id payload := payload]> (SINK_ITEMS_BY_EXTERNAL_ID st);
        FAIL_SOURCE_PAGE_2_ONCE := FAIL_SOURCE_PAGE_2_ONCE st;
        sink_write_calls := calls |}).

(** The ["count"] field of [sink_list()]. *)
Definition sink_count (st : State) : Z :=
  Z.of_nat (size (SINK_ITEMS_BY_EXTERNAL_ID st)).

(** [admin_reset()] *)
Definition admin_reset (st : State) : State :=
  {| SOURCE_ITEMS := SOURCE_ITEMS st;
     SINK_ITEMS_BY_EXTERNAL_ID := ∅;
     FAIL_SOURCE_PAGE_2_ONCE := true;
     sink_write_calls := 0 |}.

(** The server as the tool's client sees it: every request gets a
    response. *)
Definition handle (req : Request) (st : State) : Result Response * State :=
  match req with
  | GET_source_items page limit =>
      let '(resp, st') := source_items page limit st in (Return resp, st')
  | POST_sink_items key payload =>
      let '(resp, st') := sink_upsert payload (Some key) st in (Return resp, st')
  end.

(** The tool talking to this server, for given Python builtins. *)
Definition runtime (float_of_str : string -> option float)
    (random_random : nat -> float)
    (sleep_fault : float -> option SleepFault) : Runtime :=
  {| World := State;
     client_request := handle;
     float_of_str := float_of_str;
     random_random := random_random;
     sleep_fault := sleep_fault |}.

(** The order [items.sort(key=lambda x: x["external_id"])] sorts by:
    strings compared character by character. *)
Definition by_external_id (x y : Item) : Prop :=
  String.leb (external_id x) (external_id y) = true.

#[global] Instance by_external_id_dec (x y : Item) : Decision (by_external_id x y).
Proof. unfold by_external_id. apply _. Defined.

(** [sink_list()]: the pair of its ["count"] and ["items"] fields.  The
    dict's values are listed and sorted by external id; two values with
    the same external id, which no sequence of requests produces, would
    keep their insertion order in Python and need not here. *)
Definition sink_list (st : State) : Z * list Item :=
  let items := merge_sort by_external_id
                 (map snd (map_to_list (SINK_ITEMS_BY_EXTERNAL_ID st))) in
  (Z.of_nat (length items), items).

(** Every value of the sink dict is stored under its own external id. *)
Definition keyed (st : State) : Prop :=
  forall k v, SINK_ITEMS_BY_EXTERNAL_ID st !! k = Some v -> external_id v = k.

(** The server answering a list of requests, one after the other. *)
Fixpoint replay (reqs : list Request) (st : State) : list Response * State :=
  match reqs with
  | [] => ([], st)
  | GET_source_items page limit :: reqs' =>
      let '(resp, st1) := source_items page limit st in
      let '(resps, st2) := replay reqs' st1 in
      (resp :: resps, st2)
  | POST_sink_items key payload :: reqs' =>
      let '(resp, st1) := sink_upsert payload (Some key) st in
      let '(resps, st2) := replay reqs' st1 in
      (resp :: resps, st2)
  end.

(** How many responses carry the status [code]. *)
Definition count_status (code : Z) (resps : list Response) : nat :=
  length (filter (fun r => status_code r = code) resps).

End App.

(** ** Concrete runtimes for examples *)

(** [float()] on plain decimal integer literals [-?[0-9]+], where it is
    [float(int(s))]; other strings are outside this instance and answered
    [None]. *)
Definition digit_of (c : ascii) : option Z :=
  let n := Z.of_N (N_of_ascii c) in
  if (48 <=? n) && (n <=? 57) then Some (n - 48) else None.

Fixpoint digits_value (acc : Z) (s : string) : option Z :=
  match s with
  | EmptyString => Some acc
  | String c s' =>
      match digit_of c with
      | Some d => digits_value (10 * acc + d) s'
      | None => None
      end
  end.

Definition float_of_int_literal (s : string) : option float :=
  match s with
  | EmptyString => None
  | String "-"%char EmptyString => None
  | String "-"%char s' => (fun n => SFopp (fdyadic n 0)) <$> digits_value 0 s'
  | _ => (fun n => fdyadic n 0) <$> digits_value 0 s
  end.

(** [time.sleep] of CPython on ordinary arguments: NaN and negative values
    raise ValueError, infinities OverflowError. *)
Definition cpython_sleep_fault (secs : float) : option SleepFault :=
  match secs with
  | S754_nan => Some SleepValueError
  | S754_infinity _ => Some SleepOverflowError
  | _ => if fltb secs f_zero then Some SleepValueError else None
  end.

(** A random source that always draws 0.5. *)
Definition steady (_ : nat) : float := f_half.

(** The largest value [random.random()] can return, [1 - 2^-53]. *)
Definition random_max : float := Eval vm_compute in fdyadic (2 ^ 53 - 1) (-53).

(** A client that replays a fixed list of outcomes, one per call, and
    reports a network error once the list is used up. *)
Definition scripted_request (req : Request) (script : list (Result Response))
  : Result Response * list (Result Response) :=
  match script with
  | [] => (Raise NetworkError, [])
  | out :: script' => (out, script')
  end.

Definition scripted_runtime (random_random : nat -> float) : Runtime :=
  {| World := list (Result Response);
     client_request := scripted_request;
     float_of_str := float_of_int_literal;
     random_random := random_random;
     sleep_fault := cpython_sleep_fault |}.

(** A source whose cursor never moves: every page request is answered
    with an empty page and [next_page = 1]. *)
Definition stuck_request (req : Request) (w : unit) : Result Response * unit :=
  (Return (App.ok (JsonPage [] (Some 1))), w).

Definition stuck_runtime : Runtime :=
  {| World := unit;
     client_request := stuck_request;
     float_of_str := float_of_int_literal;
     random_random := steady;
     sleep_fault := cpython_sleep_fault |}.

Definition demo_app_runtime : Runtime :=
  App.runtime float_of_int_literal steady cpython_sleep_fault.

Definition env0 (rt : Runtime) (w : World rt) : Env rt :=
  {| world := w; draws := 0; trace := []; report_file := None |}.

(** The upper end of the interval the specification gives for the delay
    of attempt [n]: [1.5 * min(max_delay, base * 2^(n-1))]. *)
Definition backoff_upper_end (attempt : Z) (base cap : float) : option float :=
  (fun p => fmul f_1_5 (py_min cap (fmul base p))) <$> pow2_operand (attempt - 1).

(** Responses and records used in the examples. *)
Definition plain_response (code : Z) : Response :=
  {| status_code := code; headers := ∅; body := JsonOther |}.

Definition rate_limited (retry_after : string) : Response :=
  {| status_code := 429; headers := {[ "Retry-After" := retry_after ]};
     body := JsonOther |}.

Definition item_a : Item := {| external_id := "a"; name := "A"; value := 1 |}.
Definition item_b : Item := {| external_id := "b"; name := "B"; value := 2 |}.

(** ** Reading a trace *)

Notation "x <- m ;; k" := (bind m (fun x => k))
  (at level 100, m at next level, k at level 200, right associativity).
Notation "m ;; k" := (bind m (fun _ => k))
  (at level 100, k at level 200, right associativity).

(** The calls to [client.request] in a trace, in order. *)
Fixpoint attempts_of (evs : list Event) : list (Z * Request * Result Response) :=
  match evs with
  | [] => []
  | EvAttempt a req out :: evs' => (a, req, out) :: attempts_of evs'
  | EvSleep _ :: evs' => attempts_of evs'
  end.

(** The arguments of the calls to [time.sleep] that slept, in order. *)
Fixpoint sleeps_of (evs : list Event) : list float :=
  match evs with
  | [] => []
  | EvAttempt _ _ _ :: evs' => sleeps_of evs'
  | EvSleep s :: evs' => s :: sleeps_of evs'
  end.

(** The operations handed to the retry executor: every run of
    [request_with_retries] numbers its attempts from 1, so these are the
    requests of the attempts numbered 1. *)
Fixpoint operations_of (evs : list Event) : list Request :=
  match evs with
  | [] => []
  | EvAttempt a req _ :: evs' =>
      if a =? 1 then req :: operations_of evs' else operations_of evs'
  | EvSleep _ :: evs' => operations_of evs'
  end.

(** An attempt succeeded when it produced a response with status below 400. *)
Definition succeeded (out : Result Response) : bool :=
  match out with
  | Return resp => status_code resp <? 400
  | Raise _ => false
  end.

(** The failure a failed attempt stands for: the network fault, or the
    status error of the response. *)
Definition failure_of (out : Result Response) : Exc :=
  match out with
  | Return resp => HTTPStatusError resp
  | Raise x => x
  end.

Definition is_sink_write (req : Request) : bool :=
  match req with
  | POST_sink_items _ _ => true
  | GET_source_items _ _ => false
  end.

Definition is_source_read (req : Request) : bool := negb (is_sink_write req).

Definition request_of (a : Z * Request * Result Response) : Request := a.1.2.

Definition attempt_no (a : Z * Request * Result Response) : Z := a.1.1.

(** The [external_id]s of the upserts handed to the executor, in order. *)
Definition submitted_ids (evs : list Event) : list string :=
  omap (fun req =>
          match req with
          | POST_sink_items _ payload => Some (external_id payload)
          | GET_source_items _ _ => None
          end)
       (operations_of evs).

(** Counter-wise sum of two tallies. *)
Definition stats_add (s1 s2 : Stats) : Stats :=
  {| created_count := created_count s1 + created_count s2;
     updated_count := updated_count s1 + updated_count s2;
     failed_count := failed_count s1 + failed_count s2 |}.

Definition stats_zero : Stats :=
  {| created_count := 0; updated_count := 0; failed_count := 0 |}.

(** What one iteration does to the counters: exactly one of the three
    goes up by one, according to the outcome of the [try] block. *)
Definition tally (r : Result string) : Stats :=
  match r with
  | Return status =>
      if bool_decide (status = "created")
      then {| created_count := 1; updated_count := 0; failed_count := 0 |}
      else {| created_count := 0; updated_count := 1; failed_count := 0 |}
  | Raise _ => {| created_count := 0; updated_count := 0; failed_count := 1 |}
  end.

(** [e'] is [e] after the events [evs]; the report file is not touched. *)
Definition advances {rt : Runtime} (e : Env rt) (evs : list Event) (e' : Env rt) : Prop :=
  trace e' = trace e ++ evs /\ report_file e' = report_file e.

(** What one run of the retry loop leaves behind: [evs] are its events,
    [res] its result, [n] the iterations it was entered with and [a] the
    number of its first attempt. *)
Definition loop_post (req : Request) (retry : RetryPolicy) (n : nat) (a : Z)
    (res : Result Response) (evs : list Event) : Prop :=
  Forall (fun x => request_of x = req) (attempts_of evs) /\
  map attempt_no (attempts_of evs) = seqZ a (Z.of_nat (length (attempts_of evs))) /\
  (length (attempts_of evs) <= n)%nat /\
  (n <> 0%nat -> exists out rest, evs = EvAttempt a req out :: rest) /\
  (forall resp, res = Return resp ->
     status_code resp < 400 /\
     exists a', last (attempts_of evs) = Some (a', req, Return resp)) /\
  (forall x, last (attempts_of evs) = Some x ->
     max_attempts retry <= attempt_no x -> succeeded x.2 = false ->
     res = Raise (failure_of x.2)).

(** ** The pagination contract, in the words of the specification *)



(** The accumulated count [n] has reached the limit: a limit [l] is set
    and [n >= l]. *)
Definition count_reaches (limit : option Z) (n : nat) : Prop :=
  exists l, limit = Some l /\ l <= Z.of_nat n.



(** ** The runs of the retry loop, as a relation *)

(** The outcomes after which the loop may go round again. *)
Definition retryable_outcome (out : Result Response) : bool :=
  match out with
  | Return resp => should_retry (status_code resp)
  | Raise x => is_transient x
  end.

(** [last_exc] after an attempt that is retried. *)
Definition remembered (lst : option Exc) (out : Result Response) : option Exc :=
  match out with
  | Raise x => Some x
  | Return _ => lst
  end.

(** [stops retry a out res]: attempt number [a] ended in [out] and the
    loop ends there with result [res]. *)
Inductive stops (retry : RetryPolicy) (a : Z) : Result Response -> Result Response -> Prop :=
| stop_success resp :
    status_code resp < 400 ->
    stops retry a (Return resp) (Return resp)
| stop_status resp :
    400 <= status_code resp ->
    should_retry (status_code resp) && (a <? max_attempts retry) = false ->
    stops retry a (Return resp) (Raise (HTTPStatusError resp))
| stop_exhausted x :
    is_transient x = true -> max_attempts retry <= a ->
    stops retry a (Raise x) (Raise x)
| stop_fatal x :
    is_transient x = false ->
    stops retry a (Raise x) (Raise x)
| stop_no_sleep out y :
    retryable_outcome out = true -> succeeded out = false ->
    a < max_attempts retry ->
    stops retry a out (Raise y).

(** [loop_run rt req retry n a lst res evs]: the loop entered with [n]
    iterations to go, at attempt number [a] and with [last_exc = lst],
    produces the events [evs] and the result [res]. *)
Inductive loop_run (rt : Runtime) (req : Request) (retry : RetryPolicy)
  : nat -> Z -> option Exc -> Result Response -> list Event -> Prop :=
| run_spent a lst :
    loop_run rt req retry 0 a lst (Raise (default RuntimeError lst)) []
| run_stop n a lst out res :
    stops retry a out res ->
    loop_run rt req retry (S n) a lst res [EvAttempt a req out]
| run_retry n a lst out secs res evs :
    retryable_outcome out = true -> succeeded out = false ->
    a < max_attempts retry ->
    sleep_fault rt secs = None ->
    loop_run rt req retry n (a + 1) (remembered lst out) res evs ->
    loop_run rt req retry (S n) a lst res (EvAttempt a req out :: EvSleep secs :: evs).

(** ** Partial traversals

    [page_steps rt limit e page acc k e' page' acc']: starting at cursor
    [page] with [acc] accumulated, the fetch loop obtains [k] pages from
    the executor, none of which reaches the limit, and stands at cursor
    [page'] with [acc'] accumulated. *)
Inductive page_steps (rt : Runtime) (limit : option Z)
  : Env rt -> option Z -> list Item -> nat -> Env rt -> option Z -> list Item -> Prop :=
| steps_none e page acc :
    page_steps rt limit e page acc 0 e page acc
| steps_more e page acc resp e1 batch cursor k e2 page' acc' :
    page_continues (Some page) = true ->
    request_with_retries rt (GET_source_items page page_size) RetryPolicy_default e
      = (Return resp, e1) ->
    body resp = JsonPage batch cursor ->
    limit_reached limit (acc ++ batch) = false ->
    page_steps rt limit e1 cursor (acc ++ batch) k e2 page' acc' ->
    page_steps rt limit e (Some page) acc (S k) e2 page' acc'.

(** The result of [fetch_all_source_items] once the loop has left [items]. *)
Definition truncate (limit : option Z) (items : list Item) : list Item :=
  match limit with
  | Some l => py_slice_to items l
  | None => items
  end.

(** The upsert requests of a list of records. *)
Definition is_upsert_of (items : list Item) (req : Request) : Prop :=
  exists it, it ∈ items /\ req = upsert_request it.


(** The delay [backoff] computes on attempt 1 under [RetryPolicy()],
    as a function of the random draw. *)
Definition first_backoff_delay (r : float) : float :=
  fmul (py_min f_5 (fmul f_0_4 f_one)) (fadd f_half r).

(** A limit that is a count: absent, or not negative. *)
Definition limit_is_count (limit : option Z) : Prop :=
  match limit with
  | Some l => 0 <= l
  | None => True
  end.

(** The sink dict after the payloads of [items] are stored in order. *)
Definition store_all (m : gmap string Item) (items : list Item) : gmap string Item :=
  foldl (fun acc it => <[external_id it := payload_of it]> acc) m items.

(** What a fetch against the demo source returns: its first 1000
    records, cut to the limit. *)
Definition fetched_from (src : list Item) (limit : option Z) : list Item :=
  match limit with
  | Some l => take (Z.to_nat l `min` 1000) src
  | None => take 1000 src
  end.

(** ** [find_repo_root] *)

(** A resolved absolute path, as the list of its components below the
    filesystem root, outermost first; the root itself is the empty list. *)
Abbreviation Path := (list string).

(** [p.parent]; the parent of the root is the root. *)
Definition parent (p : Path) : Path := take (length p - 1) p.

(** What [find_repo_root] asks of its surroundings: whether a path
    exists, and the current working directory. *)
Record FileSystem := mkFileSystem {
  path_exists : Path -> bool;
  cwd : Path;
}.

(** The [for _ in range(10)] loop of [find_repo_root], entered with [n]
    iterations to go; [None] when the loop ends without returning. *)
Fixpoint find_repo_root_loop (fs : FileSystem) (n : nat) (curr : Path) : option Path :=
  match n with
  | O => None
  | S n' =>
      if path_exists fs (curr ++ [".agent"]) then Some curr
      else if bool_decide (parent curr = curr) then None
      else find_repo_root_loop fs n' (parent curr)
  end.

(** [find_repo_root(start_path)], on the resolved start path. *)
Definition find_repo_root (fs : FileSystem) (start_path : Path) : Path :=
  default (cwd fs) (find_repo_root_loop fs 10 start_path).

(** The directory [k] levels above [p] (never above the root). *)
Definition ancestor (k : nat) (p : Path) : Path := Nat.iter k parent p.

(** [p] holds the marker directory [.agent]. *)
Definition has_marker (fs : FileSystem) (p : Path) : bool :=
  path_exists fs (p ++ [".agent"]).

(** More data for the examples. *)
Definition no_budget : RetryPolicy :=
  {| max_attempts := 0; base_delay_s := f_0_4; max_delay_s := f_5 |}.

Definition page_of (items : list Item) (cursor : option Z) : Result Response :=
  Return (App.ok (JsonPage items cursor)).

Definition real_run : Args := {| dry_run := false; limit := None |}.

(** The last record of [items] that carries the external id [k]. *)
Definition latest (items : list Item) (k : string) : option Item :=
  foldl (fun acc it => if decide (external_id it = k) then Some it else acc) None items.

(** ** The client's answers and the delays between attempts *)

(** [answers rt req w outs w']: from the state [w], the client answers
    the next [length outs] calls of [client.request] for [req] with the
    outcomes [outs], in that order, and is left in the state [w']. *)
Inductive answers (rt : Runtime) (req : Request)
  : World rt -> list (Result Response) -> World rt -> Prop :=
| answers_nil w :
    answers rt req w [] w
| answers_cons w out w1 outs w2 :
    client_request rt req w = (out, w1) ->
    answers rt req w1 outs w2 ->
    answers rt req w (out :: outs) w2.

(** The failures after which another attempt is due: a response with
    status 429, 408 or 500 to 599, a timeout, a network error. *)
Definition retryable_failure (out : Result Response) : Prop :=
  match out with
  | Return resp =>
      status_code resp = 429 \/ status_code resp = 408 \/
      500 <= status_code resp <= 599
  | Raise x => x = TimeoutException \/ x = NetworkError
  end.

(** The [Retry-After] value of an outcome: that of a response whose
    header is present, not empty and accepted by [float()]. *)
Definition hint_of (rt : Runtime) (out : Result Response) : option float :=
  match out with
  | Return resp =>
      match headers resp !! "Retry-After" with
      | Some ra => if bool_decide (ra = "") then None else float_of_str rt ra
      | None => None
      end
  | Raise _ => None
  end.

(** The delay that follows attempt [a] when it ended in [out] and is
    retried: the [Retry-After] value if there is one, otherwise
    [min(max_delay, base_delay * 2^(a-1)) * (0.5 + r)] for the random draw
    [r]; [None] when the power of two does not fit a float. *)
Definition delay_after (rt : Runtime) (retry : RetryPolicy) (a : Z)
    (out : Result Response) (r : float) : option float :=
  match hint_of rt out with
  | Some secs => Some secs
  | None =>
      (fun p => fmul (py_min (max_delay_s retry) (fmul (base_delay_s retry) p))
                     (fadd f_half r))
        <$> pow2_operand (a - 1)
  end.

(** Every attempt of [outs] but the last is followed by another one: it
    failed in a retryable way and, whatever the random draw, the delay
    after it is defined and [time.sleep] accepts it.  Attempts are
    numbered from 1. *)
Definition retries_granted (rt : Runtime) (retry : RetryPolicy)
    (outs : list (Result Response)) : Prop :=
  forall i out, outs !! i = Some out -> (S i < length outs)%nat ->
    retryable_failure out /\
    forall k, exists d,
      delay_after rt retry (Z.of_nat (S i)) out (random_random rt k) = Some d /\
      sleep_fault rt d = None.


(** * Verification *)

(** ** Elementary facts *)

Lemma should_retry_spec (s : Z) :
  should_retry s = true <-> s = 429 \/ s = 408 \/ 500 <= s <= 599.
Proof.
  unfold should_retry.
  destruct (Z.eqb_spec s 429); [intuition lia|].
  destruct (Z.leb_spec 500 s), (Z.leb_spec s 599); simpl;
    try (intuition lia);
    destruct (Z.eqb_spec s 408); intuition (try lia; try discriminate).
Qed.

Lemma should_retry_ge_400 (s : Z) : should_retry s = true -> 400 <= s.
Proof. rewrite should_retry_spec. lia. Qed.

Lemma attempts_of_app (xs ys : list Event) :
  attempts_of (xs ++ ys) = attempts_of xs ++ attempts_of ys.
Proof.
  induction xs as [|[a r o|s] xs IH]; simpl; [done| |done].
  by rewrite IH.
Qed.

Lemma sleeps_of_app (xs ys : list Event) :
  sleeps_of (xs ++ ys) = sleeps_of xs ++ sleeps_of ys.
Proof.
  induction xs as [|[a r o|s] xs IH]; simpl; [done|done|].
  by rewrite IH.
Qed.

Lemma operations_of_app (xs ys : list Event) :
  operations_of (xs ++ ys) = operations_of xs ++ operations_of ys.
Proof.
  induction xs as [|[a r o|s] xs IH]; simpl; [done| |done].
  destruct (a =? 1); simpl; by rewrite IH.
Qed.

(** Attempts numbered above 1 start no operation. *)
Lemma operations_of_later (evs : list Event) :
  Forall (fun a => 1 < attempt_no a) (attempts_of evs) -> operations_of evs = [].
Proof.
  induction evs as [|[a r o|s] evs IH]; simpl; intros H; [done| |auto].
  inversion H as [|? ? Ha Hrest]; subst. unfold attempt_no in Ha; simpl in Ha.
  destruct (Z.eqb_spec a 1); [lia|auto].
Qed.

Section Executor.

Context (rt : Runtime).
Implicit Types (e : Env rt) (req : Request) (retry : RetryPolicy).

Lemma advances_refl e : advances e [] e.
Proof. split; [by rewrite app_nil_r|done]. Qed.

Lemma advances_trans e1 e2 e3 xs ys :
  advances e1 xs e2 -> advances e2 ys e3 -> advances e1 (xs ++ ys) e3.
Proof.
  intros [H1 H1'] [H2 H2']. split; [|congruence].
  by rewrite H2, H1, app_assoc.
Qed.

Lemma random_run e r e' :
  random rt e = (r, e') ->
  r = Return (random_random rt (draws e)) /\ world e' = world e /\
  draws e' = S (draws e) /\ advances e [] e'.
Proof.
  unfold random. intros [= <- <-]. simpl. repeat split. by rewrite app_nil_r.
Qed.

Lemma backoff_run attempt base cap e r e' :
  backoff rt attempt base cap e = (r, e') ->
  world e' = world e /\ advances e [] e' /\ (draws e <= draws e')%nat.
Proof.
  unfold backoff. destruct (pow2_operand _).
  - unfold bind, random, ret. intros [= <- <-]. simpl.
    repeat split; [by rewrite app_nil_r|lia].
  - unfold raise. intros [= <- <-]. repeat split; [by rewrite app_nil_r|lia].
Qed.

Lemma retry_sleep_s_run resp attempt retry e r e' :
  retry_sleep_s rt resp attempt retry e = (r, e') ->
  world e' = world e /\ advances e [] e' /\ (draws e <= draws e')%nat.
Proof.
  unfold retry_sleep_s.
  destruct (headers resp !! "Retry-After") as [ra|]; [|apply backoff_run].
  case_bool_decide; [apply backoff_run|].
  destruct (float_of_str rt ra); [|apply backoff_run].
  unfold ret. intros [= <- <-]. repeat split; [by rewrite app_nil_r|lia].
Qed.

Lemma time_sleep_run secs e r e' :
  time_sleep rt secs e = (r, e') ->
  world e' = world e /\ draws e' = draws e /\
  ((r = Return tt /\ sleep_fault rt secs = None /\ advances e [EvSleep secs] e') \/
   (exists f, r = Raise (exc_of_sleep_fault f) /\ sleep_fault rt secs = Some f /\ e' = e)).
Proof.
  unfold time_sleep. destruct (sleep_fault rt secs) as [f|]; intros [= <- <-].
  - repeat split. right. by exists f.
  - repeat split. left. repeat split.
Qed.

Lemma do_request_run attempt req e out e' :
  do_request rt attempt req e = (out, e') ->
  client_request rt req (world e) = (out, world e') /\
  draws e' = draws e /\ advances e [EvAttempt attempt req out] e'.
Proof.
  unfold do_request. destruct (client_request rt req (world e)) as [o w].
  intros [= <- <-]. repeat split.
Qed.

Lemma loop_post_single req retry n a res out :
  (forall resp, res = Return resp -> out = Return resp /\ status_code resp < 400) ->
  (max_attempts retry <= a -> succeeded out = false -> res = Raise (failure_of out)) ->
  loop_post req retry (S n) a res [EvAttempt a req out].
Proof.
  intros Hret Hfail. unfold loop_post; simpl. repeat split.
  - by repeat constructor.
  - lia.
  - intros _. by eexists _, _.
  - by apply Hret.
  - destruct (Hret _ H) as [-> _]. by exists a.
  - intros x [= <-]. unfold attempt_no; simpl. apply Hfail.
Qed.

Lemma loop_post_continue req retry n a res out sl evs :
  a < max_attempts retry ->
  attempts_of sl = [] ->
  loop_post req retry n (a + 1) res evs ->
  loop_post req retry (S n) a res (EvAttempt a req out :: sl ++ evs).
Proof.
  intros Ha Hsl (Hreq & Hnum & Hlen & _ & Hr & Hf).
  unfold loop_post; simpl. rewrite attempts_of_app, Hsl; simpl.
  repeat split.
  - by constructor.
  - rewrite Hnum. rewrite (seqZ_cons a) by lia. f_equal. f_equal; lia.
  - lia.
  - intros _. by eexists _, _.
  - by apply Hr.
  - destruct (Hr _ H) as [_ [a' Hl]]. exists a'.
    rewrite last_cons, Hl. done.
  - intros x. rewrite last_cons.
    destruct (last (attempts_of evs)) as [y|] eqn:Hl.
    + intros [= <-]. by apply Hf.
    + intros [= <-]. unfold attempt_no; simpl. lia.
Qed.

(** The tail of an iteration that retries: compute a delay, sleep, and
    enter the next iteration. *)
Lemma retry_tail_run req retry n a lst' (m : M rt float) out e e1 res e' :
  (forall a2 lst2 e2 res2 e2',
     retry_loop rt req retry n a2 lst2 e2 = (res2, e2') ->
     exists evs, advances e2 evs e2' /\ loop_post req retry n a2 res2 evs) ->
  (forall e2 r e3, m e2 = (r, e3) -> advances e2 [] e3) ->
  a < max_attempts retry ->
  advances e [EvAttempt a req out] e1 ->
  (d <- m ;; time_sleep rt d ;; retry_loop rt req retry n (a + 1) lst') e1 = (res, e') ->
  exists evs, advances e evs e' /\ loop_post req retry (S n) a res evs.
Proof.
  intros IH Hm Ha Hadv. unfold bind.
  destruct (m e1) as [[d|x] e2] eqn:Hd; apply Hm in Hd.
  - destruct (time_sleep rt d e2) as [[[]|x] e3] eqn:Hs;
      apply time_sleep_run in Hs as (_ & _ & [(? & _ & Hs)|(f & ? & _ & ->)]);
      try discriminate.
    + intros Hrec. apply IH in Hrec as (evs & Hadv' & Hpost).
      exists (EvAttempt a req out :: [EvSleep d] ++ evs). split.
      * apply (advances_trans _ _ _ [_] _ Hadv).
        apply (advances_trans _ _ _ [] _ Hd).
        by apply (advances_trans _ _ _ [_] _ Hs).
      * by apply loop_post_continue.
    + intros [= <- <-]. exists [EvAttempt a req out]. split.
      * apply (advances_trans _ _ _ [_] [] Hadv Hd).
      * apply loop_post_single; [done|lia].
  - intros [= <- <-]. exists [EvAttempt a req out]. split.
    + apply (advances_trans _ _ _ [_] [] Hadv Hd).
    + apply loop_post_single; [done|lia].
Qed.

(** Every run of the retry loop, whatever its result. *)
Lemma retry_loop_run req retry n a lst e res e' :
  retry_loop rt req retry n a lst e = (res, e') ->
  exists evs, advances e evs e' /\ loop_post req retry n a res evs.
Proof.
  revert a lst e res e'. induction n as [|n IH]; intros a lst e res e' H; simpl in H.
  - assert (exists x, res = Raise x /\ e' = e) as (x & -> & ->).
    { destruct lst as [x|]; unfold raise in H; injection H as <- <-; by eexists. }
    exists []. split; [apply advances_refl|].
    unfold loop_post; simpl. repeat split; done || lia.
  - destruct (do_request rt a req e) as [out e1] eqn:Hreq.
    apply do_request_run in Hreq as (_ & _ & Hadv).
    destruct out as [resp|x].
    + destruct (Z.ltb_spec (status_code resp) 400) as [Hs|Hs].
      { injection H as <- <-. exists [EvAttempt a req (Return resp)].
        split; [done|]. apply loop_post_single.
        - by intros ? [= <-].
        - simpl. intros _ Hn. apply Z.ltb_ge in Hn. lia. }
      destruct (should_retry (status_code resp) && (a <? max_attempts retry)) eqn:Hr.
      { apply andb_true_iff in Hr as [_ Ha%Z.ltb_lt].
        eapply retry_tail_run; eauto.
        intros ????%retry_sleep_s_run. tauto. }
      unfold bind, raise_for_status in H.
      destruct (Z.leb_spec 200 (status_code resp)), (Z.leb_spec (status_code resp) 299);
        simpl in H; try lia;
        unfold raise in H; injection H as <- <-;
        (exists [EvAttempt a req (Return resp)]; split; [done|];
         by apply loop_post_single).
    + destruct (is_transient x) eqn:Hx.
      * destruct (Z.leb_spec (max_attempts retry) a) as [Ha|Ha].
        { injection H as <- <-. exists [EvAttempt a req (Raise x)].
          split; [done|]. by apply loop_post_single. }
        eapply retry_tail_run; eauto.
        intros ????%backoff_run. tauto.
      * injection H as <- <-. exists [EvAttempt a req (Raise x)].
        split; [done|]. by apply loop_post_single.
Qed.

(** A property of the world that the requests [req] preserve is
    preserved by the retry loop on [req]. *)
Lemma retry_loop_world (P : World rt -> Prop) req retry n a lst e res e' :
  (forall w out w', P w -> client_request rt req w = (out, w') -> P w') ->
  retry_loop rt req retry n a lst e = (res, e') ->
  P (world e) -> P (world e').
Proof.
  intros HP. revert a lst e res e'.
  induction n as [|n IH]; intros a lst e res e' H Hw; simpl in H.
  - destruct lst; unfold raise in H; by injection H as <- <-.
  - destruct (do_request rt a req e) as [out e1] eqn:Hreq.
    apply do_request_run in Hreq as (Hc & _ & _).
    assert (Hw1 : P (world e1)) by eauto.
    assert (Htail : forall (m : M rt float) lst',
      (forall e2 r e3, m e2 = (r, e3) -> world e3 = world e2) ->
      (d <- m ;; time_sleep rt d ;; retry_loop rt req retry n (a + 1) lst') e1 = (res, e') ->
      P (world e')).
    { intros m lst' Hm. unfold bind.
      destruct (m e1) as [[d|x] e2] eqn:Hd; apply Hm in Hd.
      - destruct (time_sleep rt d e2) as [[[]|x] e3] eqn:Hs;
          apply time_sleep_run in Hs as (Hs & _ & _).
        + intros Hrec. eapply IH; [exact Hrec|]. congruence.
        + intros [= <- <-]. congruence.
      - intros [= <- <-]. congruence. }
    destruct out as [resp|x].
    + destruct (status_code resp <? 400); [by injection H as <- <-|].
      destruct (should_retry (status_code resp) && (a <? max_attempts retry)).
      { eapply Htail; [|exact H]. intros ????%retry_sleep_s_run. tauto. }
      unfold bind, raise_for_status, ret, raise in H.
      by destruct (_ && _); injection H as <- <-.
    + destruct (is_transient x); [|by injection H as <- <-].
      destruct (max_attempts retry <=? a); [by injection H as <- <-|].
      eapply Htail; [|exact H]. intros ????%backoff_run. tauto.
Qed.

Lemma request_with_retries_run req retry e res e' :
  request_with_retries rt req retry e = (res, e') ->
  exists evs, advances e evs e' /\
    loop_post req retry (Z.to_nat (max_attempts retry)) 1 res evs.
Proof. apply retry_loop_run. Qed.

Lemma request_with_retries_world (P : World rt -> Prop) req retry e res e' :
  (forall w out w', P w -> client_request rt req w = (out, w') -> P w') ->
  request_with_retries rt req retry e = (res, e') ->
  P (world e) -> P (world e').
Proof. apply retry_loop_world. Qed.

(** With a budget of at least one attempt, the events of one run of the
    executor show exactly one operation, the request it was given. *)
Lemma loop_post_operations req retry n res evs :
  n <> 0%nat -> loop_post req retry n 1 res evs -> operations_of evs = [req].
Proof.
  intros Hn (_ & Hnum & _ & Hfirst & _).
  destruct (Hfirst Hn) as (out & rest & ->). simpl in *.
  f_equal. apply operations_of_later.
  rewrite (seqZ_cons 1) in Hnum by lia. injection Hnum as Hnum.
  assert (Forall (fun k => 1 < k) (attempt_no <$> attempts_of rest)) as HF.
  { change (attempt_no <$> attempts_of rest) with (map attempt_no (attempts_of rest)).
    rewrite Hnum. apply Forall_seqZ. lia. }
  by rewrite Forall_fmap in HF.
Qed.

(** Every request attempted by one run of the executor is the request it
    was given. *)
Lemma loop_post_requests req retry n a res evs :
  loop_post req retry n a res evs ->
  Forall (fun x => request_of x = req) (attempts_of evs).
Proof. by intros (? & _). Qed.

(** Where the code does honour the hint: a [Retry-After] header that is
    present, not empty and accepted by [float()] gives the value handed to
    [time.sleep], with no random draw; without such a header the value is
    the computed backoff. *)
Lemma retry_sleep_s_hint resp a retry e ra secs :
  headers resp !! "Retry-After" = Some ra -> ra <> "" ->
  float_of_str rt ra = Some secs ->
  retry_sleep_s rt resp a retry e = (Return secs, e).
Proof.
  intros Hh Hne Hp. unfold retry_sleep_s. rewrite Hh.
  rewrite bool_decide_eq_false_2 by done. by rewrite Hp.
Qed.

Lemma retry_sleep_s_fallback resp a retry e :
  headers resp !! "Retry-After" = None \/
  headers resp !! "Retry-After" = Some "" \/
  (exists ra, headers resp !! "Retry-After" = Some ra /\ float_of_str rt ra = None) ->
  retry_sleep_s rt resp a retry e =
    backoff rt a (base_delay_s retry) (max_delay_s retry) e.
Proof.
  unfold retry_sleep_s. intros [->|[->|(ra & -> & Hp)]]; [done|done|].
  rewrite Hp. by case_bool_decide.
Qed.

(** One iteration of the loop, unfolded. *)
Lemma retry_loop_S req retry n a lst e :
  retry_loop rt req retry (S n) a lst e =
    match do_request rt a req e with
    | (Return resp, e1) =>
        if status_code resp <? 400 then (Return resp, e1)
        else if should_retry (status_code resp) && (a <? max_attempts retry)
        then
          (sleep_s <- retry_sleep_s rt resp a retry ;;
           time_sleep rt sleep_s ;;
           retry_loop rt req retry n (a + 1) lst) e1
        else
          (raise_for_status rt resp ;; ret resp) e1
    | (Raise x, e1) =>
        if is_transient x then
          if max_attempts retry <=? a then (Raise x, e1)
          else
            (d <- backoff rt a (base_delay_s retry) (max_delay_s retry) ;;
             time_sleep rt d ;;
             retry_loop rt req retry n (a + 1) (Some x)) e1
        else (Raise x, e1)
    end.
Proof. reflexivity. Qed.

(** ** The retry executor *)

(** C3 (amended): classification of a response received on attempt [a].
    [should_retry] holds exactly for 429, 408 and 500-599.  A status below
    400 (1xx and 3xx included) is returned at once; a status of 400 or
    more that is not retryable raises its status error at once; a
    retryable status with attempts left goes on to the sleep and the next
    attempt, and on the last attempt raises its status error.  In the
    terminal cases the environment is the one the single request left, so
    no sleep and no further request took place. *)
Theorem retry_classification req retry n a lst e resp e1 :
  do_request rt a req e = (Return resp, e1) ->
  (should_retry (status_code resp) = true <->
     status_code resp = 429 \/ status_code resp = 408 \/
     500 <= status_code resp <= 599) /\
  (status_code resp < 400 ->
     retry_loop rt req retry (S n) a lst e = (Return resp, e1)) /\
  (400 <= status_code resp -> should_retry (status_code resp) = false ->
     retry_loop rt req retry (S n) a lst e = (Raise (HTTPStatusError resp), e1)) /\
  (should_retry (status_code resp) = true -> a < max_attempts retry ->
     retry_loop rt req retry (S n) a lst e =
       (sleep_s <- retry_sleep_s rt resp a retry ;;
        time_sleep rt sleep_s ;;
        retry_loop rt req retry n (a + 1) lst) e1) /\
  (should_retry (status_code resp) = true -> max_attempts retry <= a ->
     retry_loop rt req retry (S n) a lst e = (Raise (HTTPStatusError resp), e1)).
Proof.
  intros Hreq. split; [apply should_retry_spec|].
  assert (Hfatal : 400 <= status_code resp ->
            (raise_for_status rt resp ;; ret resp) e1 = (Raise (HTTPStatusError resp), e1)).
  { intros Hs. unfold bind, raise_for_status.
    destruct (Z.leb_spec 200 (status_code resp)), (Z.leb_spec (status_code resp) 299);
      simpl; done || lia. }
  simpl. rewrite Hreq. repeat split.
  - intros Hs. by apply Z.ltb_lt in Hs as ->.
  - intros Hs Hr. apply Z.ltb_ge in Hs as Hs'. rewrite Hs', Hr. simpl. auto.
  - intros Hr Ha. pose proof (should_retry_ge_400 _ Hr) as Hs.
    apply Z.ltb_ge in Hs as ->. apply Z.ltb_lt in Ha as ->. by rewrite Hr.
  - intros Hr Ha. pose proof (should_retry_ge_400 _ Hr) as Hs.
    apply Z.ltb_ge in Hs as Hs'. apply Z.ltb_ge in Ha as ->. rewrite Hs', Hr. simpl. auto.
Qed.

(** ** Exhausting the budget *)

Lemma advances_inj e evs1 evs2 e' :
  advances e evs1 e' -> advances e evs2 e' -> evs1 = evs2.
Proof. intros [H1 _] [H2 _]. rewrite H1 in H2. by apply app_inv_head in H2. Qed.

Lemma retryable_failure_outcome (out : Result Response) :
  retryable_failure out <-> retryable_outcome out = true.
Proof.
  destruct out as [resp|x]; simpl.
  - symmetry. apply should_retry_spec.
  - destruct x; simpl; split; intros H; try done; try (by left); try (by right);
      by destruct H.
Qed.

Lemma backoff_delay a base cap e d :
  (fun p => fmul (py_min cap (fmul base p))
                 (fadd f_half (random_random rt (draws e))))
    <$> pow2_operand (a - 1) = Some d ->
  exists e2, backoff rt a base cap e = (Return d, e2) /\
    world e2 = world e /\ advances e [] e2.
Proof.
  unfold backoff. destruct (pow2_operand (a - 1)) as [p|]; [|done].
  simpl. intros [= <-]. eexists. split; [reflexivity|].
  repeat split. simpl. by rewrite app_nil_r.
Qed.

(** The delay of a retried attempt, as the loop computes it. *)
Lemma delay_after_run retry a out e d :
  delay_after rt retry a out (random_random rt (draws e)) = Some d ->
  exists e2, world e2 = world e /\ advances e [] e2 /\
    (forall resp, out = Return resp ->
       retry_sleep_s rt resp a retry e = (Return d, e2)) /\
    (forall x, out = Raise x ->
       backoff rt a (base_delay_s retry) (max_delay_s retry) e = (Return d, e2)).
Proof.
  unfold delay_after, hint_of. destruct out as [resp|x].
  - assert (Hfall : retry_sleep_s rt resp a retry e =
                      backoff rt a (base_delay_s retry) (max_delay_s retry) e ->
      (fun p => fmul (py_min (max_delay_s retry) (fmul (base_delay_s retry) p))
                     (fadd f_half (random_random rt (draws e))))
        <$> pow2_operand (a - 1) = Some d ->
      exists e2, world e2 = world e /\ advances e [] e2 /\
        (forall resp', Return resp = Return resp' ->
           retry_sleep_s rt resp' a retry e = (Return d, e2)) /\
        (forall x, Return resp = Raise x ->
           backoff rt a (base_delay_s retry) (max_delay_s retry) e = (Return d, e2))).
    { intros Heq (e2 & Hb & Hw & Hadv)%backoff_delay. exists e2.
      split; [done|]. split; [done|]. split; [|done].
      intros ? [= <-]. by rewrite Heq. }
    destruct (headers resp !! "Retry-After") as [ra|] eqn:Hh.
    + destruct (decide (ra = "")) as [->|Hne].
      * rewrite bool_decide_eq_true_2 by done.
        apply Hfall, retry_sleep_s_fallback. right. by left.
      * rewrite bool_decide_eq_false_2 by done.
        destruct (float_of_str rt ra) as [secs|] eqn:Hp.
        -- intros [= <-]. exists e. split; [done|]. split; [apply advances_refl|].
           split; [|done]. intros ? [= <-]. by eapply retry_sleep_s_hint.
        -- apply Hfall, retry_sleep_s_fallback. right. right. by exists ra.
    + apply Hfall, retry_sleep_s_fallback. by left.
  - intros (e2 & Hb & Hw & Hadv)%backoff_delay. exists e2.
    split; [done|]. split; [done|]. split; [done|]. by intros ? [= <-].
Qed.

(** The attempts of a run are the answers of the client, one call of
    [client.request] each, and the client is left where the last call
    left it. *)
Lemma retry_loop_answers req retry n a lst e res e' :
  retry_loop rt req retry n a lst e = (res, e') ->
  exists evs, advances e evs e' /\
    answers rt req (world e) (map (fun x => x.2) (attempts_of evs)) (world e').
Proof.
  revert a lst e res e'. induction n as [|n IH]; intros a lst e res e' H.
  - exists []. simpl in H.
    destruct lst as [x|]; unfold raise in H; injection H as <- <-;
      (split; [apply advances_refl|apply answers_nil]).
  - rewrite retry_loop_S in H.
    destruct (do_request rt a req e) as [out e1] eqn:Hreq.
    apply do_request_run in Hreq as (Hc & _ & Hadv).
    assert (Hone : exists evs, advances e evs e1 /\
              answers rt req (world e) (map (fun x => x.2) (attempts_of evs)) (world e1)).
    { exists [EvAttempt a req out]. split; [done|].
      simpl. eapply answers_cons; [exact Hc|apply answers_nil]. }
    assert (Htail : forall (m : M rt float) lst',
      (forall e2 r e3, m e2 = (r, e3) -> world e3 = world e2 /\ advances e2 [] e3) ->
      (d <- m ;; time_sleep rt d ;; retry_loop rt req retry n (a + 1) lst') e1 = (res, e') ->
      exists evs, advances e evs e' /\
        answers rt req (world e) (map (fun x => x.2) (attempts_of evs)) (world e')).
    { intros m lst' Hm. unfold bind.
      destruct (m e1) as [[d|x] e2] eqn:Hd; apply Hm in Hd as (Hw2 & Hadv2).
      - destruct (time_sleep rt d e2) as [[[]|x] e3] eqn:Hs;
          apply time_sleep_run in Hs as (Hw3 & _ & [(? & _ & Hs)|(f & ? & _ & ->)]);
          try discriminate.
        + intros Hrec. apply IH in Hrec as (evs & Hadv' & Hans).
          exists (EvAttempt a req out :: EvSleep d :: evs). split.
          * apply (advances_trans _ _ _ [_] _ Hadv).
            apply (advances_trans _ _ _ [] _ Hadv2).
            by apply (advances_trans _ _ _ [_] _ Hs).
          * simpl. eapply answers_cons; [exact Hc|].
            rewrite Hw3, Hw2 in Hans. exact Hans.
        + intros [= <- <-]. exists [EvAttempt a req out]. split.
          * apply (advances_trans _ _ _ [_] [] Hadv Hadv2).
          * simpl. eapply answers_cons; [exact Hc|]. rewrite Hw2. apply answers_nil.
      - intros [= <- <-]. exists [EvAttempt a req out]. split.
        + apply (advances_trans _ _ _ [_] [] Hadv Hadv2).
        + simpl. eapply answers_cons; [exact Hc|]. rewrite Hw2. apply answers_nil. }
    destruct out as [resp|x].
    + destruct (status_code resp <? 400); [by injection H as <- <-|].
      destruct (should_retry (status_code resp) && (a <? max_attempts retry)).
      { eapply Htail; [|exact H]. intros ????%retry_sleep_s_run. tauto. }
      unfold bind, raise_for_status, ret, raise in H.
      by destruct (_ && _); injection H as <- <-.
    + destruct (is_transient x); [|by injection H as <- <-].
      destruct (max_attempts retry <=? a); [by injection H as <- <-|].
      eapply Htail; [|exact H]. intros ????%backoff_run. tauto.
Qed.

(** When the client fails every call the budget allows, and every
    failure but the last is retried, the loop makes all these calls and
    raises the failure of the last. *)
Lemma retry_loop_exhausts req retry outs :
  forall n a lst e w',
  answers rt req (world e) outs w' ->
  length outs = n -> (1 <= n)%nat ->
  Z.of_nat n = max_attempts retry - a + 1 ->
  Forall (fun out => succeeded out = false) outs ->
  (forall i out, outs !! i = Some out -> (S i < length outs)%nat ->
     retryable_failure out /\
     forall k, exists d,
       delay_after rt retry (a + Z.of_nat i) out (random_random rt k) = Some d /\
       sleep_fault rt d = None) ->
  exists e' evs out,
    retry_loop rt req retry n a lst e = (Raise (failure_of out), e') /\
    last outs = Some out /\ advances e evs e' /\
    map (fun x => x.2) (attempts_of evs) = outs /\ world e' = w'.
Proof.
  induction outs as [|out outs IH]; intros n a lst e w' Hans Hlen Hn Hbudget Hfail Hgr.
  - simpl in Hlen. lia.
  - inversion Hans as [|w out' w1 outs' w2 Hc Hrest]; subst.
    apply Forall_cons in Hfail as [Hout Hfail].
    cbn [length] in *. rewrite retry_loop_S.
    set (e1 := {| world := w1; draws := draws e;
                  trace := trace e ++ [EvAttempt a req out];
                  report_file := report_file e |}).
    assert (Hdo : do_request rt a req e = (out, e1)).
    { unfold do_request. by rewrite Hc. }
    assert (Hadv1 : advances e [EvAttempt a req out] e1) by done.
    rewrite Hdo.
    destruct outs as [|out2 outs].
    + inversion Hrest; subst. simpl in Hbudget.
      exists e1, [EvAttempt a req out], out.
      split; [|by repeat split].
      destruct out as [resp|x]; simpl in Hout.
      * rewrite Hout.
        replace (a <? max_attempts retry) with false by (symmetry; apply Z.ltb_ge; lia).
        rewrite andb_false_r. apply Z.ltb_ge in Hout.
        unfold bind, raise_for_status.
        destruct (Z.leb_spec 200 (status_code resp)),
                 (Z.leb_spec (status_code resp) 299); simpl; done || lia.
      * destruct (is_transient x); [|done].
        by replace (max_attempts retry <=? a) with true by (symmetry; apply Z.leb_le; lia).
    + destruct (Hgr 0%nat out eq_refl ltac:(simpl; lia)) as (Hretry & Hdelay).
      destruct (Hdelay (draws e1)) as (d & Hd & Hsleep).
      rewrite Z.add_0_r in Hd.
      apply delay_after_run in Hd as (e2 & Hw2 & Hadv2 & Hresp & Hexc).
      set (e3 := emit rt (EvSleep d) e2).
      assert (Hs : time_sleep rt d e2 = (Return tt, e3)).
      { unfold time_sleep. by rewrite Hsleep. }
      assert (Hadv3 : advances e2 [EvSleep d] e3) by done.
      assert (Hnext : forall lst', exists e' evs outl,
        retry_loop rt req retry (S (length outs)) (a + 1) lst' e3
          = (Raise (failure_of outl), e') /\
        last (out2 :: outs) = Some outl /\ advances e3 evs e' /\
        map (fun x => x.2) (attempts_of evs) = out2 :: outs /\ world e' = w').
      { intros lst'. apply IH.
        - simpl. rewrite Hw2. exact Hrest.
        - done.
        - lia.
        - cbn [length] in Hbudget. lia.
        - done.
        - intros i o Hi Hlt.
          destruct (Hgr (S i) o Hi ltac:(simpl in *; lia)) as [? Hk].
          split; [done|]. intros k. destruct (Hk k) as (d' & Hd' & ?).
          exists d'. split; [|done].
          by replace (a + 1 + Z.of_nat i) with (a + Z.of_nat (S i)) by lia. }
      assert (Ha : (a <? max_attempts retry) = true)
        by (apply Z.ltb_lt; cbn [length] in Hbudget; lia).
      apply retryable_failure_outcome in Hretry.
      destruct out as [resp|x]; simpl in Hout, Hretry.
      * destruct (Hnext lst) as (e' & evs & outl & Hrun & Hlast & Hadv & Hmap & Hw).
        exists e', (EvAttempt a req (Return resp) :: EvSleep d :: evs), outl.
        split; [|split; [by rewrite last_cons, Hlast|split; [|split; [simpl; by rewrite Hmap|done]]]].
        -- rewrite Hout, Hretry, Ha. simpl. unfold bind.
           rewrite (Hresp resp eq_refl), Hs. exact Hrun.
        -- apply (advances_trans _ _ _ [_] _ Hadv1).
           apply (advances_trans _ _ _ [] _ Hadv2).
           by apply (advances_trans _ _ _ [_] _ Hadv3).
      * destruct (Hnext (Some x)) as (e' & evs & outl & Hrun & Hlast & Hadv & Hmap & Hw).
        exists e', (EvAttempt a req (Raise x) :: EvSleep d :: evs), outl.
        split; [|split; [by rewrite last_cons, Hlast|split; [|split; [simpl; by rewrite Hmap|done]]]].
        -- rewrite Hretry.
           replace (max_attempts retry <=? a) with false
             by (symmetry; apply Z.leb_gt; by apply Z.ltb_lt).
           unfold bind. rewrite (Hexc x eq_refl), Hs. exact Hrun.
        -- apply (advances_trans _ _ _ [_] _ Hadv1).
           apply (advances_trans _ _ _ [] _ Hadv2).
           by apply (advances_trans _ _ _ [_] _ Hadv3).
Qed.

(** C7: one run of the executor, with a budget of at least one attempt.
    Its attempts are the client's answers to as many calls of
    [client.request], at most [max_attempts] of them.  When the client
    fails [max_attempts] calls in a row, each failure but the last being
    one that is retried (a retryable status, a timeout or a network error,
    followed by a delay that [time.sleep] accepts), the executor makes
    exactly these [max_attempts] attempts and raises the failure of the
    last one to its caller: its status error, or its network fault.  In
    any run that has made [max_attempts] attempts none of which succeeded,
    the result is the failure of the last attempt; and a response that the
    executor returns has a status below 400. *)
Theorem retry_budget_exhaustion req retry e res e' :
  1 <= max_attempts retry ->
  request_with_retries rt req retry e = (res, e') ->
  exists evs, advances e evs e' /\
    answers rt req (world e) (map (fun x => x.2) (attempts_of evs)) (world e') /\
    Z.of_nat (length (attempts_of evs)) <= max_attempts retry /\
    (forall outs w',
       answers rt req (world e) outs w' ->
       Z.of_nat (length outs) = max_attempts retry ->
       Forall (fun out => succeeded out = false) outs ->
       retries_granted rt retry outs ->
       map (fun x => x.2) (attempts_of evs) = outs /\
       map attempt_no (attempts_of evs) = seqZ 1 (max_attempts retry) /\
       world e' = w' /\
       exists out, last outs = Some out /\ res = Raise (failure_of out)) /\
    (Z.of_nat (length (attempts_of evs)) = max_attempts retry ->
     Forall (fun x => succeeded x.2 = false) (attempts_of evs) ->
     exists x, last (attempts_of evs) = Some x /\ res = Raise (failure_of x.2)) /\
    (forall resp, res = Return resp -> status_code resp < 400).
Proof.
  intros Hmax H.
  destruct (request_with_retries_run _ _ _ _ _ H) as (evs & Hadv & Hpost).
  destruct (retry_loop_answers _ _ _ _ _ _ _ _ H) as (evs' & Hadv' & Hans).
  rewrite <- (advances_inj _ _ _ _ Hadv Hadv') in Hans. clear evs' Hadv'.
  exists evs. split; [done|]. split; [done|].
  destruct Hpost as (_ & Hnum & Hlen & _ & Hret & Hfail).
  split; [lia|]. split; [|split].
  - intros outs w' Houts Hfull Hall Hgr.
    destruct (retry_loop_exhausts req retry outs (Z.to_nat (max_attempts retry)) 1
                None e w') as (e2 & evs2 & out & Hrun & Hlast & Hadv2 & Hmap & Hw);
      [done|lia|lia|lia|done| |].
    { intros i o Hi Hlt. destruct (Hgr i o Hi Hlt) as [? Hk]. split; [done|].
      intros k. destruct (Hk k) as (d & Hd & ?). exists d. split; [|done].
      by replace (1 + Z.of_nat i) with (Z.of_nat (S i)) by lia. }
    unfold request_with_retries in H. rewrite Hrun in H. injection H as <- <-.
    rewrite (advances_inj _ _ _ _ Hadv Hadv2).
    split; [done|]. split; [|split; [done|by exists out]].
    rewrite (advances_inj _ _ _ _ Hadv Hadv2) in Hnum. rewrite Hnum.
    f_equal. rewrite <- Hfull, <- Hmap. by rewrite length_map.
  - intros Hfull Hall.
    destruct (last (attempts_of evs)) as [x|] eqn:Hlast.
    + exists x. split; [done|]. apply Hfail; [done| |].
      * assert (last (map attempt_no (attempts_of evs)) = Some (attempt_no x)) as Hl.
        { change (last (attempt_no <$> attempts_of evs) = Some (attempt_no x)).
          by rewrite fmap_last, Hlast. }
        rewrite Hnum, last_lookup, length_seqZ in Hl.
        apply lookup_seqZ in Hl. lia.
      * apply last_Some_elem_of in Hlast.
        by apply (proj1 (Forall_forall _ _) Hall).
    + apply last_None in Hlast. rewrite Hlast in Hfull. simpl in Hfull. lia.
  - intros resp Hr. by apply Hret.
Qed.

End Executor.

(** ** The reconciler *)

Section Reconciler.

Context (rt : Runtime).
Implicit Types (e : Env rt) (it : Item) (st : Stats).

Lemma json_status_run resp e r e' :
  json_status rt resp e = (r, e') -> e' = e.
Proof. unfold json_status. destruct (body resp); by intros [= <- <-]. Qed.

Lemma upsert_try_run it e r e' :
  upsert_try rt it e = (r, e') ->
  exists evs, advances e evs e' /\
    operations_of evs = [upsert_request it] /\
    Forall (fun x => request_of x = upsert_request it) (attempts_of evs).
Proof.
  unfold upsert_try, bind.
  destruct (request_with_retries _ _ _ e) as [res e1] eqn:H.
  apply request_with_retries_run in H as (evs & Hadv & Hpost).
  intros H'. assert (e' = e1) as ->.
  { destruct res as [resp|x]; [by eapply json_status_run|by injection H' as <- <-]. }
  exists evs. split; [done|]. split.
  - eapply loop_post_operations; [|exact Hpost]. by vm_compute.
  - by eapply loop_post_requests.
Qed.

Lemma upsert_try_world (P : World rt -> Prop) it e r e' :
  (forall w out w', P w -> client_request rt (upsert_request it) w = (out, w') -> P w') ->
  upsert_try rt it e = (r, e') -> P (world e) -> P (world e').
Proof.
  intros HP. unfold upsert_try, bind.
  destruct (request_with_retries _ _ _ e) as [res e1] eqn:H.
  intros H' Hw. eapply request_with_retries_world in H; [|done..].
  destruct res as [resp|x]; [|by injection H' as <- <-].
  by apply json_status_run in H' as ->.
Qed.

Lemma upsert_one_tally it st e :
  upsert_one rt it st e =
    (stats_add st (tally (upsert_try rt it e).1), (upsert_try rt it e).2).
Proof.
  unfold upsert_one. destruct (upsert_try rt it e) as [[status|x] e1]; simpl.
  - case_bool_decide; unfold stats_add; simpl; do 2 f_equal; lia.
  - unfold stats_add; simpl; do 2 f_equal; lia.
Qed.

Lemma stats_add_assoc s1 s2 s3 :
  stats_add (stats_add s1 s2) s3 = stats_add s1 (stats_add s2 s3).
Proof. unfold stats_add; simpl; f_equal; lia. Qed.

Lemma stats_add_zero_r s : stats_add s stats_zero = s.
Proof. destruct s. unfold stats_add; simpl; f_equal; lia. Qed.

Lemma stats_add_zero_l s : stats_add stats_zero s = s.
Proof. destruct s. unfold stats_add; simpl; f_equal; lia. Qed.

(** The counters a loop starts from only offset its result. *)
Lemma upsert_loop_from items st e :
  upsert_loop rt items st e =
    (stats_add st (upsert_sink_items rt items e).1, (upsert_sink_items rt items e).2).
Proof.
  unfold upsert_sink_items. fold stats_zero.
  revert st e. induction items as [|it items IH]; intros st e; simpl.
  - by rewrite stats_add_zero_r.
  - rewrite !upsert_one_tally.
    rewrite (IH (stats_add st _)), (IH (stats_add stats_zero _)); simpl.
    by rewrite stats_add_zero_l, stats_add_assoc.
Qed.

Lemma upsert_sink_items_cons it items e :
  upsert_sink_items rt (it :: items) e =
    (stats_add (tally (upsert_try rt it e).1)
               (upsert_sink_items rt items (upsert_try rt it e).2).1,
     (upsert_sink_items rt items (upsert_try rt it e).2).2).
Proof.
  unfold upsert_sink_items at 1. fold stats_zero. simpl.
  by rewrite upsert_one_tally, upsert_loop_from, stats_add_zero_l.
Qed.

Lemma upsert_sink_items_app l1 l2 e :
  upsert_sink_items rt (l1 ++ l2) e =
    (stats_add (upsert_sink_items rt l1 e).1
               (upsert_sink_items rt l2 (upsert_sink_items rt l1 e).2).1,
     (upsert_sink_items rt l2 (upsert_sink_items rt l1 e).2).2).
Proof.
  revert e. induction l1 as [|it l1 IH]; intros e.
  - simpl. change (upsert_sink_items rt [] e) with (stats_zero, e). simpl.
    by rewrite stats_add_zero_l, <- surjective_pairing.
  - simpl. rewrite !upsert_sink_items_cons, IH; simpl.
    by rewrite stats_add_assoc.
Qed.

Lemma upsert_sink_items_run items e :
  exists evs, advances e evs (upsert_sink_items rt items e).2 /\
    operations_of evs = map upsert_request items /\
    Forall (fun x => is_sink_write (request_of x) = true) (attempts_of evs).
Proof.
  revert e. induction items as [|it items IH]; intros e.
  - exists []. split; [apply advances_refl|done].
  - rewrite upsert_sink_items_cons; simpl.
    destruct (upsert_try rt it e) as [r e1] eqn:Ht; simpl.
    apply upsert_try_run in Ht as (evs1 & Hadv1 & Hops1 & Hreq1).
    destruct (IH e1) as (evs2 & Hadv2 & Hops2 & Hreq2).
    exists (evs1 ++ evs2). split; [by eapply advances_trans|]. split.
    + by rewrite operations_of_app, Hops1, Hops2.
    + rewrite attempts_of_app. apply Forall_app. split; [|done].
      eapply Forall_impl; [exact Hreq1|]. by intros x ->.
Qed.

Lemma tally_total r :
  created_count (tally r) + updated_count (tally r) + failed_count (tally r) = 1 /\
  0 <= created_count (tally r) /\ 0 <= updated_count (tally r) /\
  0 <= failed_count (tally r).
Proof. destruct r as [s|x]; simpl; [case_bool_decide|]; simpl; lia. Qed.

Lemma upsert_sink_items_total items e :
  let st := (upsert_sink_items rt items e).1 in
  created_count st + updated_count st + failed_count st = Z.of_nat (length items) /\
  0 <= created_count st /\ 0 <= updated_count st /\ 0 <= failed_count st.
Proof.
  revert e. induction items as [|it items IH]; intros e; [simpl; lia|].
  rewrite upsert_sink_items_cons. cbn [fst length stats_add created_count updated_count failed_count].
  pose proof (tally_total (upsert_try rt it e).1).
  pose proof (IH (upsert_try rt it e).2). simpl in *. lia.
Qed.

Lemma submitted_ids_upserts items evs :
  operations_of evs = map upsert_request items ->
  submitted_ids evs = map external_id items.
Proof.
  unfold submitted_ids. intros ->.
  induction items as [|it items IH]; simpl; [done|]. f_equal. apply IH.
Qed.

(** C9: the reconciler hands each record it is given to the executor
    exactly once, in order, so the [external_id]s submitted are those
    supplied, each as often as it was supplied; every iteration raises
    exactly one of the three counters by one; and on completion the three
    counters add up to the number of records presented. *)
Theorem tally_invariant items e :
  let st := (upsert_sink_items rt items e).1 in
  (exists evs, advances e evs (upsert_sink_items rt items e).2 /\
     operations_of evs = map upsert_request items /\
     submitted_ids evs = map external_id items) /\
  (forall it st0 e0,
     (upsert_one rt it st0 e0).1 = stats_add st0 (tally (upsert_try rt it e0).1) /\
     created_count (tally (upsert_try rt it e0).1) +
     updated_count (tally (upsert_try rt it e0).1) +
     failed_count (tally (upsert_try rt it e0).1) = 1) /\
  created_count st + updated_count st + failed_count st = Z.of_nat (length items) /\
  0 <= created_count st /\ 0 <= updated_count st /\ 0 <= failed_count st.
Proof.
  intros st. split; [|split].
  - destruct (upsert_sink_items_run items e) as (evs & Hadv & Hops & _).
    exists evs. repeat split; try apply Hadv; [done|].
    by apply submitted_ids_upserts.
  - intros it st0 e0. rewrite upsert_one_tally. split; [done|].
    apply tally_total.
  - apply upsert_sink_items_total.
Qed.

End Reconciler.

(** ** The paginated fetcher *)

Section Fetcher.

Context (rt : Runtime).
Implicit Types (e : Env rt) (limit page : option Z) (items : list Item).

Lemma fetch_loop_run fuel limit page items e r e' :
  fetch_loop rt fuel limit page items e = (r, e') ->
  exists evs, advances e evs e' /\
    Forall (fun x => is_source_read (request_of x) = true) (attempts_of evs).
Proof.
  revert page items e. induction fuel as [|fuel IH]; intros page items e H.
  - exists []. destruct page as [p|]; cbn [fetch_loop] in H;
      [destruct (page_continues _)|]; injection H as <- <-;
      (split; [apply advances_refl|done]).
  - destruct page as [p|]; cbn [fetch_loop] in H;
      [destruct (page_continues _)|]; try (injection H as <- <-; exists [];
      (split; [apply advances_refl|done])).
    destruct (request_with_retries _ _ _ e) as [res e1] eqn:Hr.
    apply request_with_retries_run in Hr as (evs1 & Hadv1 & Hpost).
    apply loop_post_requests in Hpost.
    assert (Forall (fun x => is_source_read (request_of x) = true) (attempts_of evs1)) as H1.
    { eapply Forall_impl; [exact Hpost|]. by intros x ->. }
    destruct res as [resp|x]; [|injection H as <- <-; by exists evs1].
    destruct (body resp) as [batch next| |]; try (injection H as <- <-; by exists evs1).
    destruct (limit_reached _ _); [injection H as <- <-; by exists evs1|].
    apply IH in H as (evs2 & Hadv2 & H2).
    exists (evs1 ++ evs2). split; [by eapply advances_trans|].
    rewrite attempts_of_app. by apply Forall_app.
Qed.


Lemma fetch_all_source_items_run fuel limit e r e' :
  fetch_all_source_items rt fuel limit e = (r, e') ->
  exists evs, advances e evs e' /\
    Forall (fun x => is_source_read (request_of x) = true) (attempts_of evs).
Proof.
  unfold fetch_all_source_items.
  destruct (fetch_loop rt fuel limit (Some 1) [] e) as [r0 e0] eqn:H.
  apply fetch_loop_run in H.
  destruct r0 as [[items|x]|]; [destruct limit| |]; by intros [= <- <-].
Qed.



Lemma limit_reached_count limit items :
  limit_reached limit items = true <-> count_reaches limit (length items).
Proof.
  unfold limit_reached, count_reaches. destruct limit as [l|].
  - rewrite Z.leb_le. split; [by exists l|]. by intros (l' & [= <-] & Hl).
  - split; [done|]. by intros (l & ? & _).
Qed.






Lemma py_slice_to_take {A} (l : list A) (n : Z) :
  0 <= n -> py_slice_to l n = take (Z.to_nat n) l.
Proof. intros Hn. unfold py_slice_to. by apply Z.leb_le in Hn as ->. Qed.


End Fetcher.

(** ** The run as a whole *)

Section Run.

Context (rt : Runtime).
Implicit Types (e : Env rt) (args : Args).

(** C8: when the upsert of the record [it] raises, whatever the cause,
    [failed_count] goes up by exactly one for it and the records after it
    are reconciled as they would be on their own from the environment the
    failure left: the tally of the whole list is the tally before [it],
    plus one failure, plus the tally of the rest, and every record of the
    list is handed to the executor.  The reconciler itself never raises;
    [main] then returns exit code 2 when [failed_count > 0] and 0 when
    [failed_count = 0]. *)
Theorem failure_isolation l1 it l2 e x :
  let before := upsert_sink_items rt l1 e in
  (upsert_try rt it before.2).1 = Raise x ->
  let whole := upsert_sink_items rt (l1 ++ it :: l2) e in
  let after := upsert_sink_items rt l2 (upsert_try rt it before.2).2 in
  (failed_count whole.1 = failed_count before.1 + 1 + failed_count after.1 /\
   created_count whole.1 = created_count before.1 + created_count after.1 /\
   updated_count whole.1 = updated_count before.1 + updated_count after.1 /\
   whole.2 = after.2) /\
  (exists evs, advances e evs whole.2 /\
     operations_of evs = map upsert_request (l1 ++ it :: l2)) /\
  (forall fuel args run_id timestamp e0 items e1,
     dry_run args = false ->
     fetch_all_source_items rt fuel (limit args) e0 = (Some (Return items), e1) ->
     let stats := (upsert_sink_items rt items e1).1 in
     exists code,
       main rt fuel args run_id timestamp e0 =
         (Some (Return code), (upsert_sink_items rt items e1).2) /\
       (0 < failed_count stats -> code = 2) /\
       (failed_count stats = 0 -> code = 0)).
Proof.
  intros before Hfail whole after. split; [|split].
  - unfold whole, after, before.
    rewrite upsert_sink_items_app, upsert_sink_items_cons. simpl.
    unfold before in Hfail. rewrite Hfail. simpl. repeat split; lia.
  - destruct (upsert_sink_items_run rt (l1 ++ it :: l2) e) as (evs & Hadv & Hops & _).
    by exists evs.
  - intros fuel args run_id timestamp e0 items e1 Hdry Hfetch stats.
    unfold main. rewrite Hfetch, Hdry.
    destruct (upsert_sink_items rt items e1) as [st e2] eqn:Hup.
    exists (if failed_count st =? 0 then 0 else 2). unfold stats. simpl.
    split; [done|].
    destruct (Z.eqb_spec (failed_count st) 0); split; intros; lia || done.
Qed.


End Run.

(** ** The demo sink *)

Section AppSink.

#[local] Set Warnings "-clear-no-such-hyp".

Context (parse : string -> option float) (draw : nat -> float)
        (fault : float -> option SleepFault) (secs : float).

(** The sink's hint [Retry-After: 1] parses, and [time.sleep] accepts the
    value. *)
Hypothesis parse_hint : parse "1" = Some secs.
Hypothesis sleep_hint : fault secs = None.

Let rt : Runtime := App.runtime parse draw fault.

Implicit Types (e : Env rt) (st : App.State) (it : Item).

(** The sink never rate-limits two calls in a row. *)
Lemma no_two_429_in_a_row (calls : Z) :
  (calls + 1) mod App.SINK_429_EVERY_N_CALLS = 0 ->
  (calls + 1 + 1) mod App.SINK_429_EVERY_N_CALLS <> 0.
Proof.
  unfold App.SINK_429_EVERY_N_CALLS. intros H.
  pose proof (Z.div_mod (calls + 1) 5 ltac:(lia)).
  pose proof (Z.div_mod (calls + 1 + 1) 5 ltac:(lia)).
  pose proof (Z.mod_pos_bound (calls + 1 + 1) 5 ltac:(lia)). lia.
Qed.

Lemma sink_upsert_429 payload key st :
  (App.sink_write_calls st + 1) mod App.SINK_429_EVERY_N_CALLS = 0 ->
  App.sink_upsert payload key st =
    (App.http_exception 429 {[ "Retry-After" := "1" ]},
     {| App.SOURCE_ITEMS := App.SOURCE_ITEMS st;
        App.SINK_ITEMS_BY_EXTERNAL_ID := App.SINK_ITEMS_BY_EXTERNAL_ID st;
        App.FAIL_SOURCE_PAGE_2_ONCE := App.FAIL_SOURCE_PAGE_2_ONCE st;
        App.sink_write_calls := App.sink_write_calls st + 1 |}).
Proof.
  intros H. unfold App.sink_upsert. rewrite H. reflexivity.
Qed.

Lemma sink_upsert_ok payload key st :
  (App.sink_write_calls st + 1) mod App.SINK_429_EVERY_N_CALLS <> 0 ->
  App.sink_upsert payload key st =
    (App.ok (JsonStatus
       (if bool_decide (App.SINK_ITEMS_BY_EXTERNAL_ID st !! external_id payload = None)
        then "created" else "updated")),
     {| App.SOURCE_ITEMS := App.SOURCE_ITEMS st;
        App.SINK_ITEMS_BY_EXTERNAL_ID :=
          <[external_id payload := payload]> (App.SINK_ITEMS_BY_EXTERNAL_ID st);
        App.FAIL_SOURCE_PAGE_2_ONCE := App.FAIL_SOURCE_PAGE_2_ONCE st;
        App.sink_write_calls := App.sink_write_calls st + 1 |}).
Proof.
  intros H. unfold App.sink_upsert.
  destruct (Z.eqb_spec ((App.sink_write_calls st + 1) mod App.SINK_429_EVERY_N_CALLS) 0);
    [done|reflexivity].
Qed.

Lemma app_upsert_try it e :
  exists e',
    upsert_try rt it e =
      (Return (if bool_decide (App.SINK_ITEMS_BY_EXTERNAL_ID (world e) !! external_id it = None)
               then "created" else "updated"), e') /\
    App.SINK_ITEMS_BY_EXTERNAL_ID (world e') =
      <[external_id it := payload_of it]> (App.SINK_ITEMS_BY_EXTERNAL_ID (world e)).
Proof.
  unfold upsert_try, bind, request_with_retries.
  change (Z.to_nat (max_attempts RetryPolicy_default)) with 6%nat.
  rewrite retry_loop_S. unfold do_request at 1.
  change (client_request rt) with App.handle. unfold upsert_request. cbn [App.handle].
  destruct (Z.eq_dec ((App.sink_write_calls (world e) + 1) mod App.SINK_429_EVERY_N_CALLS) 0)
    as [Hlim|Hok].
  - rewrite (sink_upsert_429 _ _ _ Hlim).
    cbn [App.http_exception status_code headers body].
    change (429 <? 400) with false.
    change (should_retry 429 && (1 <? max_attempts RetryPolicy_default)) with true.
    cbv iota.
    unfold bind at 1. unfold retry_sleep_s at 1.
    cbn [App.http_exception status_code headers body].
    rewrite lookup_singleton_eq.
    rewrite bool_decide_eq_false_2 by done.
    change (float_of_str rt) with parse. rewrite parse_hint.
    unfold ret at 1. unfold bind at 1. unfold time_sleep at 1.
    change (sleep_fault rt) with fault. rewrite sleep_hint.
    rewrite retry_loop_S. unfold do_request at 1.
    change (client_request rt) with App.handle. cbn [App.handle emit world].
    apply no_two_429_in_a_row in Hlim.
    rewrite sink_upsert_ok by exact Hlim.
    cbn [App.ok status_code body]. change (200 <? 400) with true. cbv iota.
    unfold json_status, ret. cbn [body App.ok]. eexists. split; [reflexivity|].
    reflexivity.
  - rewrite (sink_upsert_ok _ _ _ Hok).
    cbn [App.ok status_code body]. change (200 <? 400) with true. cbv iota.
    unfold json_status, ret. cbn [body App.ok]. eexists. split; [reflexivity|].
    reflexivity.
Qed.

(** An upsert of a key the sink already holds. *)
Lemma sink_upsert_present st payload key :
  is_Some (App.SINK_ITEMS_BY_EXTERNAL_ID st !! external_id payload) ->
  let r := App.sink_upsert payload key st in
  App.sink_count r.2 = App.sink_count st /\
  body r.1 <> JsonStatus "created" /\
  (status_code r.1 = 200 -> body r.1 = JsonStatus "updated").
Proof.
  intros [v Hv]. unfold App.sink_upsert.
  destruct (_ && _); simpl; [done|].
  rewrite bool_decide_eq_false_2 by congruence. repeat split; try done.
  unfold App.sink_count. simpl. f_equal.
  rewrite <- !size_dom, dom_insert_L. f_equal.
  apply elem_of_dom_2 in Hv. set_solver.
Qed.

(** Against the demo sink every upsert goes through: the sink ends up
    holding every submitted key, and nothing fails. *)
Lemma app_reconcile items e :
  let r := upsert_sink_items rt items e in
  dom (App.SINK_ITEMS_BY_EXTERNAL_ID (world r.2)) =
    dom (App.SINK_ITEMS_BY_EXTERNAL_ID (world e)) ∪ list_to_set (external_id <$> items) /\
  failed_count r.1 = 0 /\
  (Forall (fun it => external_id it ∈ dom (App.SINK_ITEMS_BY_EXTERNAL_ID (world e))) items ->
   created_count r.1 = 0 /\ updated_count r.1 = Z.of_nat (length items)).
Proof.
  revert e. induction items as [|it items IH]; intros e.
  - simpl. repeat split; try done. set_solver.
  - cbn zeta. rewrite upsert_sink_items_cons.
    destruct (app_upsert_try it e) as (e1 & Htry & Hsink).
    rewrite Htry. cbn [fst snd].
    destruct (IH e1) as (Hdom & Hfailed & Hupd). cbn zeta in Hdom, Hfailed, Hupd.
    split; [|split].
    + rewrite Hdom, Hsink, dom_insert_L, fmap_cons, list_to_set_cons. set_solver.
    + cbn [stats_add failed_count tally]. case_bool_decide; simpl; lia.
    + intros Hall. apply Forall_cons in Hall as [Hit Hall].
      destruct Hupd as [Hc Hu].
      { eapply Forall_impl; [exact Hall|]. intros it' Hin.
        rewrite Hsink, dom_insert_L. set_solver. }
      apply elem_of_dom in Hit as [v Hv].
      rewrite bool_decide_eq_false_2 by congruence.
      cbn [stats_add created_count updated_count tally length].
      rewrite bool_decide_eq_false_2 by done. simpl. lia.
Qed.

(** C1: against the demo sink, reconciling the same records a second time
    without a reset leaves the sink's record count where the first run
    left it, and the second run creates nothing: every record is reported
    updated.  At the sink itself, an upsert of a key already present never
    changes the count and never answers "created". *)
Theorem sync_idempotent items e :
  let first := upsert_sink_items rt items e in
  let second := upsert_sink_items rt items first.2 in
  App.sink_count (world second.2) = App.sink_count (world first.2) /\
  created_count second.1 = 0 /\
  updated_count second.1 = Z.of_nat (length items) /\
  failed_count second.1 = 0 /\
  (forall st payload key,
     is_Some (App.SINK_ITEMS_BY_EXTERNAL_ID st !! external_id payload) ->
     let r := App.sink_upsert payload key st in
     App.sink_count r.2 = App.sink_count st /\
     body r.1 <> JsonStatus "created" /\
     (status_code r.1 = 200 -> body r.1 = JsonStatus "updated")).
Proof.
  intros first second.
  destruct (app_reconcile items e) as (Hdom1 & _ & _). fold first in Hdom1.
  destruct (app_reconcile items first.2) as (Hdom2 & Hfailed & Hupd).
  fold second in Hdom2, Hfailed, Hupd.
  assert (Hin : Forall (fun it => external_id it ∈
                  dom (App.SINK_ITEMS_BY_EXTERNAL_ID (world first.2))) items).
  { apply Forall_forall. intros it Hit. rewrite Hdom1.
    apply elem_of_union_r, elem_of_list_to_set, list_elem_of_fmap. by exists it. }
  destruct (Hupd Hin) as [Hc Hu].
  split; [|split; [done|split; [done|split; [done|apply sink_upsert_present]]]].
  unfold App.sink_count. f_equal. rewrite <- !size_dom. f_equal.
  rewrite Hdom2. rewrite Hdom1 at 2. set_solver.
Qed.

End AppSink.

(** ** Concrete runs *)

(** C3, as stated, fails: 302 is a non-2xx status outside the retry set,
    and the executor returns the response instead of raising. *)
Lemma redirect_is_returned :
  let rt := scripted_runtime steady in
  let resp := plain_response 302 in
  (200 <=? status_code resp) && (status_code resp <=? 299) = false /\
  should_retry (status_code resp) = false /\
  (request_with_retries rt (GET_source_items 1 page_size) RetryPolicy_default
     (env0 rt [Return resp])).1 = Return resp.
Proof. by vm_compute. Qed.

Lemma retry_classification_witness :
  let rt := scripted_runtime steady in
  let req := GET_source_items 1 page_size in
  let resp := plain_response 404 in
  let e := env0 rt [Return resp] in
  do_request rt 1 req e = (Return resp, (do_request rt 1 req e).2) /\
  retry_loop rt req RetryPolicy_default 6 1 None e =
    (Raise (HTTPStatusError resp), (do_request rt 1 req e).2).
Proof.
  intros rt req resp e. split; [reflexivity|].
  destruct (retry_classification rt req RetryPolicy_default 5 1 None e resp
              (do_request rt 1 req e).2 eq_refl) as (_ & _ & Hfatal & _).
  apply Hfatal; [by vm_compute|reflexivity].
Defined.

(** C4: a retryable response whose [Retry-After] is "-1".  The executor
    gives the parsed value to [time.sleep], which raises ValueError; the
    exception leaves [request_with_retries] after the first attempt, with
    no sleep, no backoff draw, and the second response never requested. *)
Theorem negative_retry_after_raises :
  let rt := scripted_runtime steady in
  let req := GET_source_items 1 page_size in
  let later := Return (App.ok (JsonPage [] None)) in
  let r := request_with_retries rt req RetryPolicy_default
             (env0 rt [Return (rate_limited "-1"); later]) in
  should_retry 429 = true /\
  float_of_str rt "-1" = Some (SFopp f_one) /\
  sleep_fault rt (SFopp f_one) = Some SleepValueError /\
  r.1 = Raise ValueError /\
  trace r.2 = [EvAttempt 1 req (Return (rate_limited "-1"))] /\
  draws r.2 = 0%nat /\
  world r.2 = [later].
Proof. by vm_compute. Qed.

(** C5: attempt 1 with base 1.0 and cap 1.0, when [random.random()]
    returns its largest value [1 - 2^-53].  The sum [0.5 + r] rounds to
    1.5, so the delay is 1.5, the upper end of the interval, which the
    half-open interval excludes. *)
Theorem backoff_reaches_upper_end :
  let rt := scripted_runtime (fun _ => random_max) in
  fleb f_zero random_max = true /\ fltb random_max f_one = true /\
  fadd f_half random_max = f_1_5 /\
  (backoff rt 1 f_one f_one (env0 rt [])).1 = Return f_1_5 /\
  backoff_upper_end 1 f_one f_one = Some f_1_5 /\
  fltb f_1_5 f_1_5 = false.
Proof. by vm_compute. Qed.

(** One request to the source whose cursor never moves. *)
Lemma stuck_request_run (e : Env stuck_runtime) :
  request_with_retries stuck_runtime (GET_source_items 1 page_size)
      RetryPolicy_default e =
    (Return (App.ok (JsonPage [] (Some 1))),
     {| world := world e; draws := draws e;
        trace := trace e ++ [EvAttempt 1 (GET_source_items 1 page_size)
                               (Return (App.ok (JsonPage [] (Some 1))))];
        report_file := report_file e |}).
Proof.
  unfold request_with_retries.
  change (Z.to_nat (max_attempts RetryPolicy_default)) with 6%nat.
  rewrite retry_loop_S. unfold do_request. simpl. by destruct (world e).
Qed.

Lemma stuck_fetch_loop (n : nat) (items : list Item) (e : Env stuck_runtime) :
  fetch_loop stuck_runtime n None (Some 1) items e =
    (None,
     {| world := world e; draws := draws e;
        trace := trace e ++ replicate n (EvAttempt 1 (GET_source_items 1 page_size)
                               (Return (App.ok (JsonPage [] (Some 1)))));
        report_file := report_file e |}).
Proof.
  revert items e. induction n as [|n IH]; intros items e.
  - simpl. rewrite app_nil_r. by destruct e.
  - cbn [fetch_loop]. change (page_continues (Some 1)) with true. cbv iota.
    rewrite stuck_request_run. cbn [body App.ok limit_reached].
    rewrite IH. cbn [world draws trace report_file replicate].
    by rewrite <- app_assoc.
Qed.

Lemma attempts_of_replicate n a req out :
  attempts_of (replicate n (EvAttempt a req out)) = replicate n (a, req, out).
Proof. induction n as [|n IH]; simpl; [done|]. by rewrite IH. Qed.

(** C6: against a source that answers every page request with an empty
    page and [next_page = 1], the fetch loop is still running after [n]
    iterations, for every [n], and has by then made [n] page requests:
    no bound of 100 fetches holds and the loop does not terminate. *)
Theorem stuck_source_never_stops (n : nat) :
  let r := fetch_all_source_items stuck_runtime n None (env0 stuck_runtime tt) in
  r.1 = None /\
  length (attempts_of (trace r.2)) = n /\
  Forall (fun a => request_of a = GET_source_items 1 page_size) (attempts_of (trace r.2)).
Proof.
  unfold fetch_all_source_items. rewrite stuck_fetch_loop. simpl.
  rewrite attempts_of_replicate. split; [done|]. split.
  - apply length_replicate.
  - by apply Forall_replicate.
Qed.

Lemma retry_budget_exhaustion_witness :
  let rt := scripted_runtime steady in
  let req := GET_source_items 1 page_size in
  let outs := [Return (plain_response 503); Raise TimeoutException;
               Return (plain_response 502); Raise NetworkError;
               Return (rate_limited "1"); Return (plain_response 500)] in
  let e := env0 rt outs in
  let r := request_with_retries rt req RetryPolicy_default e in
  1 <= max_attempts RetryPolicy_default /\
  answers rt req (world e) outs [] /\
  Z.of_nat (length outs) = max_attempts RetryPolicy_default /\
  Forall (fun out => succeeded out = false) outs /\
  retries_granted rt RetryPolicy_default outs /\
  r.1 = Raise (HTTPStatusError (plain_response 500)) /\
  map (fun x => x.2) (attempts_of (trace r.2)) = outs /\
  exists evs, advances e evs r.2 /\
    map (fun x => x.2) (attempts_of evs) = outs /\
    map attempt_no (attempts_of evs) = seqZ 1 (max_attempts RetryPolicy_default) /\
    world r.2 = [] /\
    exists out, last outs = Some out /\ r.1 = Raise (failure_of out).
Proof.
  intros rt req outs e r.
  assert (Hmax : 1 <= max_attempts RetryPolicy_default) by (by vm_compute).
  assert (Hans : answers rt req (world e) outs []).
  { repeat (eapply answers_cons; [reflexivity|]). apply answers_nil. }
  assert (Hlen : Z.of_nat (length outs) = max_attempts RetryPolicy_default)
    by reflexivity.
  assert (Hall : Forall (fun out => succeeded out = false) outs)
    by (repeat constructor).
  assert (Hgr : retries_granted rt RetryPolicy_default outs).
  { intros i out Hi Hlt.
    do 5 (destruct i as [|i]; [injection Hi as <-; split;
      [simpl; first [lia | by left | by right]
      |intros k; eexists; split; [reflexivity|by vm_compute]]|]).
    simpl in Hlt. lia. }
  split; [exact Hmax|]. split; [exact Hans|]. split; [exact Hlen|].
  split; [exact Hall|]. split; [exact Hgr|].
  split; [by vm_compute|]. split; [by vm_compute|].
  destruct (retry_budget_exhaustion rt req RetryPolicy_default e r.1 r.2 Hmax
              (surjective_pairing _)) as (evs & Hadv & _ & _ & Hexhaust & _).
  exists evs. split; [exact Hadv|]. exact (Hexhaust outs [] Hans Hlen Hall Hgr).
Defined.

Lemma failure_isolation_witness :
  let rt := scripted_runtime steady in
  let e := env0 rt [Return (plain_response 404);
                    Return (App.ok (JsonStatus "created"))] in
  (upsert_try rt item_a (upsert_sink_items rt [] e).2).1
    = Raise (HTTPStatusError (plain_response 404)) /\
  failed_count (upsert_sink_items rt ([] ++ item_a :: [item_b]) e).1 =
    failed_count (upsert_sink_items rt [] e).1 + 1 +
    failed_count (upsert_sink_items rt [item_b]
                    (upsert_try rt item_a (upsert_sink_items rt [] e).2).2).1.
Proof.
  intros rt e. split; [by vm_compute|].
  destruct (failure_isolation rt [] item_a [item_b] e
              (HTTPStatusError (plain_response 404)) ltac:(by vm_compute))
    as ((Hfailed & _) & _).
  exact Hfailed.
Defined.




Lemma sync_idempotent_witness :
  let items := [item_a; item_b; item_a; item_b; item_a; item_b] in
  let e := env0 demo_app_runtime App.initial in
  let first := upsert_sink_items demo_app_runtime items e in
  let second := upsert_sink_items demo_app_runtime items first.2 in
  float_of_int_literal "1" = Some f_one /\
  cpython_sleep_fault f_one = None /\
  App.sink_count (world first.2) = 2 /\
  App.sink_count (world second.2) = App.sink_count (world first.2).
Proof.
  intros items e first second.
  split; [reflexivity|]. split; [reflexivity|]. split; [by vm_compute|].
  destruct (sync_idempotent float_of_int_literal steady cpython_sleep_fault f_one
              eq_refl eq_refl items e) as (Hcount & _).
  exact Hcount.
Defined.

(** The scenario of the end-to-end tests: 25 source records in pages of
    10, page 2 failing once, the sink rate-limiting every fifth write. *)
Example demo_two_runs :
  let rt := demo_app_runtime in
  let args := {| dry_run := false; limit := None |} in
  let run1 := main rt 10 args "run1" "t1" (env0 rt (App.seed_source App.initial)) in
  let run2 := main rt 10 args "run2" "t2" run1.2 in
  run1.1 = Some (Return 0) /\ App.sink_count (world run1.2) = 25 /\
  run2.1 = Some (Return 0) /\ App.sink_count (world run2.2) = 25.
Proof. by vm_compute. Qed.

Example demo_limit_5 :
  let rt := demo_app_runtime in
  let args := {| dry_run := false; limit := Some 5 |} in
  let run := main rt 10 args "run" "t" (env0 rt (App.seed_source App.initial)) in
  run.1 = Some (Return 0) /\ App.sink_count (world run.2) = 5.
Proof. by vm_compute. Qed.

Example demo_dry_run :
  let rt := demo_app_runtime in
  let args := {| dry_run := true; limit := None |} in
  let run := main rt 10 args "run" "t" (env0 rt (App.seed_source App.initial)) in
  run.1 = Some (Return 0) /\ App.sink_count (world run.2) = 0 /\
  (report_count <$> report_file run.2) = Some 25 /\
  (length <$> (report_external_ids <$> report_file run.2)) = Some 20%nat.
Proof. by vm_compute. Qed.

(** * Further properties *)

(** ** The retry executor, run by run *)

Section ExecutorRuns.

Context (rt : Runtime).
Implicit Types (e : Env rt) (req : Request) (retry : RetryPolicy).

(** The tail of an iteration that retries, for [loop_run]. *)
Lemma retry_tail_loop_run req retry n a lst lst' (m : M rt float) out e e1 res e' :
  (forall a2 lst2 e2 res2 e2',
     retry_loop rt req retry n a2 lst2 e2 = (res2, e2') ->
     exists evs, advances e2 evs e2' /\ loop_run rt req retry n a2 lst2 res2 evs) ->
  (forall e2 r e3, m e2 = (r, e3) -> advances e2 [] e3) ->
  retryable_outcome out = true -> succeeded out = false ->
  a < max_attempts retry ->
  lst' = remembered lst out ->
  advances e [EvAttempt a req out] e1 ->
  (d <- m ;; time_sleep rt d ;; retry_loop rt req retry n (a + 1) lst') e1 = (res, e') ->
  exists evs, advances e evs e' /\ loop_run rt req retry (S n) a lst res evs.
Proof.
  intros IH Hm Hout Hfailed Ha -> Hadv. unfold bind.
  destruct (m e1) as [[d|x] e2] eqn:Hd; apply Hm in Hd.
  - destruct (time_sleep rt d e2) as [[[]|x] e3] eqn:Hs;
      apply time_sleep_run in Hs as (_ & _ & [(? & Hok & Hs)|(f & ? & _ & ->)]);
      try discriminate.
    + intros Hrec. apply IH in Hrec as (evs & Hadv' & Hrun).
      exists (EvAttempt a req out :: EvSleep d :: evs). split.
      * apply (advances_trans _ _ _ _ [_] _ Hadv).
        apply (advances_trans _ _ _ _ [] _ Hd).
        by apply (advances_trans _ _ _ _ [_] _ Hs).
      * by apply run_retry.
    + intros [= <- <-]. exists [EvAttempt a req out]. split.
      * apply (advances_trans _ _ _ _ [_] [] Hadv Hd).
      * apply run_stop. by apply stop_no_sleep.
  - intros [= <- <-]. exists [EvAttempt a req out]. split.
    + apply (advances_trans _ _ _ _ [_] [] Hadv Hd).
    + apply run_stop. by apply stop_no_sleep.
Qed.

(** The loop only produces runs of the relation. *)
Lemma retry_loop_loop_run req retry n a lst e res e' :
  retry_loop rt req retry n a lst e = (res, e') ->
  exists evs, advances e evs e' /\ loop_run rt req retry n a lst res evs.
Proof.
  revert a lst e res e'. induction n as [|n IH]; intros a lst e res e' H.
  - exists []. simpl in H.
    destruct lst as [x|]; unfold raise in H; injection H as <- <-;
      (split; [apply advances_refl|apply run_spent]).
  - rewrite retry_loop_S in H.
    destruct (do_request rt a req e) as [out e1] eqn:Hreq.
    apply do_request_run in Hreq as (_ & _ & Hadv).
    destruct out as [resp|x].
    + destruct (Z.ltb_spec (status_code resp) 400) as [Hs|Hs].
      { injection H as <- <-. exists [EvAttempt a req (Return resp)].
        split; [done|]. apply run_stop. by apply stop_success. }
      destruct (should_retry (status_code resp) && (a <? max_attempts retry)) eqn:Hr.
      { apply andb_true_iff in Hr as [Hr Ha%Z.ltb_lt].
        eapply (retry_tail_loop_run req retry n a lst lst _ (Return resp));
          [exact IH| |exact Hr| |exact Ha|reflexivity|exact Hadv|exact H].
        - intros ????%retry_sleep_s_run. tauto.
        - simpl. by apply Z.ltb_ge. }
      unfold bind, raise_for_status in H.
      destruct (Z.leb_spec 200 (status_code resp)), (Z.leb_spec (status_code resp) 299);
        simpl in H; try lia;
        unfold raise in H; injection H as <- <-;
        (exists [EvAttempt a req (Return resp)]; split; [done|];
         apply run_stop; by apply stop_status).
    + destruct (is_transient x) eqn:Hx.
      * destruct (Z.leb_spec (max_attempts retry) a) as [Ha|Ha].
        { injection H as <- <-. exists [EvAttempt a req (Raise x)].
          split; [done|]. apply run_stop. by apply stop_exhausted. }
        eapply (retry_tail_loop_run req retry n a lst (Some x) _ (Raise x));
          [exact IH| |exact Hx|reflexivity|exact Ha|reflexivity|exact Hadv|exact H].
        intros ????%backoff_run. tauto.
      * injection H as <- <-. exists [EvAttempt a req (Raise x)].
        split; [done|]. apply run_stop. by apply stop_fatal.
Qed.


Lemma loop_run_retried req retry n a lst res evs :
  loop_run rt req retry n a lst res evs ->
  forall i x, attempts_of evs !! i = Some x ->
    (S i < length (attempts_of evs))%nat ->
    retryable_outcome x.2 = true /\ succeeded x.2 = false /\
    attempt_no x < max_attempts retry.
Proof.
  induction 1 as [a lst|n a lst out res Hstop
                 |n a lst out secs res evs Hout Hfailed Ha Hsleep Hrun IH];
    intros i x Hx Hi; simpl in *.
  - done.
  - lia.
  - destruct i as [|i]; simpl in Hx.
    + by injection Hx as <-.
    + apply (IH i x Hx). lia.
Qed.



(** X2: with [max_attempts <= 0] the executor sends nothing and raises
    RuntimeError, leaving the environment as it found it. *)
Theorem no_budget_no_request req retry e :
  max_attempts retry <= 0 ->
  request_with_retries rt req retry e = (Raise RuntimeError, e).
Proof.
  intros Hmax. unfold request_with_retries.
  replace (Z.to_nat (max_attempts retry)) with 0%nat by lia. reflexivity.
Qed.

(** X3: in every run of the executor, an attempt that is followed by
    another attempt ended in a retryable status (429, 408, 5xx) or in a
    timeout or network error, and happened before the last attempt of the
    budget; no other outcome is ever retried. *)
Theorem retried_only_if_retryable req retry e :
  exists evs, advances e evs (request_with_retries rt req retry e).2 /\
    forall i x, attempts_of evs !! i = Some x ->
      (S i < length (attempts_of evs))%nat ->
      retryable_outcome x.2 = true /\ succeeded x.2 = false /\
      attempt_no x < max_attempts retry.
Proof.
  destruct (request_with_retries rt req retry e) as [res e'] eqn:H.
  apply retry_loop_loop_run in H as (evs & Hadv & Hrun).
  exists evs. split; [done|]. by eapply loop_run_retried.
Qed.

End ExecutorRuns.

(** ** The fetcher, page by page *)

Section FetcherSteps.

Context (rt : Runtime).
Implicit Types (e : Env rt) (limit page : option Z) (items : list Item).

Lemma fetch_loop_steps limit e page acc k e1 page1 acc1 :
  page_steps rt limit e page acc k e1 page1 acc1 ->
  forall fuel,
    fetch_loop rt (k + fuel) limit page acc e = fetch_loop rt fuel limit page1 acc1 e1.
Proof.
  induction 1 as [|e page acc resp e1 batch cursor k e2 page' acc'
                   Hc Hreq Hbody Hlim Hsteps IH]; intros fuel; [done|].
  cbn [Nat.add fetch_loop]. rewrite Hc, Hreq, Hbody, Hlim. apply IH.
Qed.

Lemma fetch_loop_done fuel limit page items e :
  page_continues page = false ->
  fetch_loop rt fuel limit page items e = (Some (Return items), e).
Proof.
  intros Hc. destruct fuel, page; cbn [fetch_loop]; by rewrite ?Hc.
Qed.

Lemma fetch_all_of_loop fuel limit e r e' :
  fetch_loop rt fuel limit (Some 1) [] e = (Some r, e') ->
  fetch_all_source_items rt fuel limit e =
    (Some (match r with
           | Return items => Return (truncate limit items)
           | Raise x => Raise x
           end), e').
Proof.
  intros H. unfold fetch_all_source_items. rewrite H.
  destruct r as [items|x]; [by destruct limit|done].
Qed.

(** X4: whatever the limit, a fetch that is given any fuel begins with a
    request for page 1 of the source with page size 10. *)
Theorem fetch_starts_at_page_1 fuel limit e :
  exists out rest,
    trace (fetch_all_source_items rt (S fuel) limit e).2 =
      trace e ++ EvAttempt 1 (GET_source_items 1 10) out :: rest.
Proof.
  assert (exists out rest,
            trace (fetch_loop rt (S fuel) limit (Some 1) [] e).2 =
              trace e ++ EvAttempt 1 (GET_source_items 1 10) out :: rest) as Hloop.
  { cbn [fetch_loop]. change (page_continues (Some 1)) with true. cbv iota.
    destruct (request_with_retries _ _ _ e) as [res e1] eqn:Hreq.
    apply request_with_retries_run in Hreq as (evs1 & [Htr1 _] & Hpost).
    destruct Hpost as (_ & _ & _ & Hfirst & _).
    destruct Hfirst as (out & rest & ->); [by vm_compute|].
    destruct res as [resp|x]; [|by exists out, rest].
    destruct (body resp) as [batch cursor| |]; try by exists out, rest.
    destruct (limit_reached _ _); [by exists out, rest|].
    destruct (fetch_loop rt fuel limit cursor ([] ++ batch) e1) as [r e2] eqn:Hrest.
    apply fetch_loop_run in Hrest as (evs2 & [Htr2 _] & _).
    exists out, (rest ++ evs2). simpl. rewrite Htr2, Htr1.
    by rewrite <- app_assoc. }
  destruct Hloop as (out & rest & Htr). exists out, rest.
  unfold fetch_all_source_items.
  destruct (fetch_loop rt (S fuel) limit (Some 1) [] e) as [[[items|x]|] e1];
    [destruct limit| |]; exact Htr.
Qed.

(** X5: pagination is fail-fast.  When, after any number of pages, the
    executor raises on the next page, the fetch raises that exception;
    when it returns a response whose body has no page in it, the fetch
    raises KeyError.  In both cases the pages gathered so far are lost and
    no further request is made. *)
Theorem fetch_fails_fast limit e k e1 p acc res e2 :
  page_steps rt limit e (Some 1) [] k e1 (Some p) acc ->
  page_continues (Some p) = true ->
  request_with_retries rt (GET_source_items p page_size) RetryPolicy_default e1
    = (res, e2) ->
  (forall x, res = Raise x ->
     forall fuel, fetch_all_source_items rt (k + S fuel) limit e = (Some (Raise x), e2)) /\
  (forall resp, res = Return resp ->
     (forall batch cursor, body resp <> JsonPage batch cursor) ->
     forall fuel, fetch_all_source_items rt (k + S fuel) limit e = (Some (Raise KeyError), e2)).
Proof.
  intros Hsteps Hc Hreq. split.
  - intros x -> fuel. apply (fetch_all_of_loop _ _ _ (Raise x)).
    rewrite (fetch_loop_steps _ _ _ _ _ _ _ _ Hsteps).
    cbn [fetch_loop]. by rewrite Hc, Hreq.
  - intros resp -> Hbody fuel. apply (fetch_all_of_loop _ _ _ (Raise KeyError)).
    rewrite (fetch_loop_steps _ _ _ _ _ _ _ _ Hsteps).
    cbn [fetch_loop]. rewrite Hc, Hreq.
    destruct (body resp) as [batch cursor| |]; [by destruct (Hbody batch cursor)|done..].
Qed.

(** X6: the traversal ends, without error, at the first cursor that is
    absent, zero or above [max_pages = 100]: the fetch then returns what
    it accumulated (cut to the limit, if any), whatever fuel is left. *)
Theorem fetch_ends_at_bad_cursor limit e k e1 cursor acc fuel :
  page_steps rt limit e (Some 1) [] k e1 cursor acc ->
  cursor = None \/ cursor = Some 0 \/ (exists q, cursor = Some q /\ 100 < q) ->
  fetch_all_source_items rt (k + fuel) limit e = (Some (Return (truncate limit acc)), e1).
Proof.
  intros Hsteps Hcur. apply (fetch_all_of_loop _ _ _ (Return acc)).
  rewrite (fetch_loop_steps _ _ _ _ _ _ _ _ Hsteps).
  apply fetch_loop_done.
  destruct Hcur as [->|[->|(q & -> & Hq)]]; [done|done|].
  unfold page_continues, max_pages. apply andb_false_iff. right. by apply Z.leb_gt.
Qed.

(** X7: a limit of zero or less is reached by the first page, whatever
    it holds: the fetch stops after that one request.  With limit 0 it
    returns no item; with a negative limit [l] it returns the first page
    without its last [-l] items. *)
Theorem fetch_with_nonpositive_limit l e resp e1 batch cursor fuel :
  l <= 0 ->
  request_with_retries rt (GET_source_items 1 page_size) RetryPolicy_default e
    = (Return resp, e1) ->
  body resp = JsonPage batch cursor ->
  fetch_all_source_items rt (S fuel) (Some l) e =
    (Some (Return (if l =? 0 then []
                   else take (length batch - Z.to_nat (- l)) batch)), e1).
Proof.
  intros Hl Hreq Hbody. unfold fetch_all_source_items. cbn [fetch_loop].
  change (page_continues (Some 1)) with true. cbv iota.
  rewrite Hreq, Hbody. simpl.
  destruct (Z.leb_spec l (Z.of_nat (length batch))); [|lia].
  unfold py_slice_to. destruct (Z.eqb_spec l 0) as [->|Hne]; [done|].
  destruct (Z.leb_spec 0 l); [lia|done].
Qed.

End FetcherSteps.

(** ** The reconciler and the run, further *)

Section ReconcilerBounds.

Context (rt : Runtime).
Implicit Types (e : Env rt) (it : Item) (st : Stats).

Lemma upsert_try_attempts it e :
  exists evs, advances e evs (upsert_try rt it e).2 /\
    (1 <= length (attempts_of evs) <= 6)%nat /\
    Forall (fun x => request_of x = upsert_request it) (attempts_of evs).
Proof.
  destruct (upsert_try rt it e) as [r e'] eqn:Htry. revert Htry.
  unfold upsert_try, bind.
  destruct (request_with_retries _ _ _ e) as [res e1] eqn:H.
  apply request_with_retries_run in H as (evs & Hadv & Hpost).
  intros H'. assert (e' = e1) as ->.
  { destruct res as [resp|x]; [by eapply json_status_run|by injection H' as <- <-]. }
  exists evs. split; [done|].
  destruct Hpost as (Hreq & _ & Hlen & Hfirst & _).
  split; [|done]. split.
  - destruct Hfirst as (out & rest & ->); [by vm_compute|]. simpl. lia.
  - exact Hlen.
Qed.

(** X8: reconciling [n] records costs at least [n] and at most [6 n]
    requests, every one of them the upsert of a record of the list; the
    reconciler never reads the source and never touches the report. *)
Theorem reconcile_request_bounds items e :
  exists evs, advances e evs (upsert_sink_items rt items e).2 /\
    (length items <= length (attempts_of evs) <= 6 * length items)%nat /\
    Forall (fun x => is_upsert_of items (request_of x)) (attempts_of evs).
Proof.
  revert e. induction items as [|it items IH]; intros e.
  - exists []. split; [apply advances_refl|]. split; [simpl; lia|constructor].
  - rewrite upsert_sink_items_cons. cbn [snd].
    destruct (upsert_try_attempts it e) as (evs1 & Hadv1 & Hlen1 & Hreq1).
    destruct (IH (upsert_try rt it e).2) as (evs2 & Hadv2 & Hlen2 & Hreq2).
    exists (evs1 ++ evs2). split; [by eapply advances_trans|].
    rewrite attempts_of_app, length_app. split; [simpl; lia|].
    apply Forall_app. split.
    + eapply Forall_impl; [exact Hreq1|]. intros x ->. exists it. split; [|done].
      apply list_elem_of_here.
    + eapply Forall_impl; [exact Hreq2|]. intros x (it' & Hin & ->).
      exists it'. split; [|done]. by apply list_elem_of_further.
Qed.

(** X9: how one record is tallied, given what the executor produced for
    its upsert.  Only the exact status "created" counts as created; any
    other status string counts as updated; a response without a status,
    like an exception, counts as failed. *)
Theorem upsert_one_classifies it st e res e1 :
  request_with_retries rt (upsert_request it) RetryPolicy_default e = (res, e1) ->
  let bump c u f :=
    ({| created_count := created_count st + c;
        updated_count := updated_count st + u;
        failed_count := failed_count st + f |}, e1) in
  (forall resp, res = Return resp -> body resp = JsonStatus "created" ->
     upsert_one rt it st e = bump 1 0 0) /\
  (forall resp s, res = Return resp -> body resp = JsonStatus s -> s <> "created" ->
     upsert_one rt it st e = bump 0 1 0) /\
  (forall resp, res = Return resp -> (forall s, body resp <> JsonStatus s) ->
     upsert_one rt it st e = bump 0 0 1) /\
  (forall x, res = Raise x -> upsert_one rt it st e = bump 0 0 1).
Proof.
  intros Hreq bump. unfold bump, upsert_one, upsert_try, bind. rewrite Hreq.
  repeat split.
  - intros resp -> Hb. unfold json_status, ret. rewrite Hb.
    rewrite bool_decide_eq_true_2 by done. do 2 f_equal; lia.
  - intros resp s -> Hb Hs. unfold json_status, ret. rewrite Hb.
    rewrite bool_decide_eq_false_2 by done. do 2 f_equal; lia.
  - intros resp -> Hb. unfold json_status, raise.
    destruct (body resp) as [| s |]; [|by destruct (Hb s)|]; do 2 f_equal; lia.
  - intros x ->. do 2 f_equal; lia.
Qed.

(** X10: the idempotency key is the external id behind the fixed prefix
    "sync:": it does not depend on the other fields of the record, and
    two records get the same key exactly when they have the same
    external id. *)
Theorem idempotency_key_injective (p q : Item) :
  idempotency_key_of (payload_of p) = "sync:" +:+ external_id p /\
  (idempotency_key_of (payload_of p) = idempotency_key_of (payload_of q) <->
   external_id p = external_id q).
Proof.
  split; [done|]. unfold idempotency_key_of, payload_of; simpl. split.
  - by intros [= ?].
  - by intros ->.
Qed.

End ReconcilerBounds.

Section RunFurther.

Context (rt : Runtime).
Implicit Types (e : Env rt) (args : Args).

(** X11: when [main] returns, the exit code is 0 or 2; a dry run returns
    only 0, and 2 means that a real run counted at least one failed
    record. *)
Theorem exit_code_is_0_or_2 fuel args run_id timestamp e code e' :
  main rt fuel args run_id timestamp e = (Some (Return code), e') ->
  (code = 0 \/ code = 2) /\
  (dry_run args = true -> code = 0) /\
  (code = 2 ->
     dry_run args = false /\
     exists items e1,
       fetch_all_source_items rt fuel (limit args) e = (Some (Return items), e1) /\
       0 < failed_count (upsert_sink_items rt items e1).1).
Proof.
  unfold main.
  destruct (fetch_all_source_items rt fuel (limit args) e) as [[[items|x]|] e1] eqn:Hf;
    try discriminate.
  destruct (dry_run args).
  - intros [= <- <-]. repeat split; auto; discriminate.
  - destruct (upsert_sink_items rt items e1) as [stats e2] eqn:Hup.
    intros [= <- <-].
    pose proof (upsert_sink_items_total rt items e1) as (_ & _ & _ & Hpos).
    rewrite Hup in Hpos. simpl in Hpos.
    destruct (Z.eqb_spec (failed_count stats) 0).
    + repeat split; auto; discriminate.
    + repeat split; auto; try discriminate.
      exists items, e1. rewrite Hup. simpl. split; [done|lia].
Qed.

(** X12: a fetch that raises aborts the run in either mode: [main]
    raises the same exception from the environment the fetch left, in
    which no sink write was attempted and no report was written. *)
Theorem failed_fetch_aborts_run fuel args run_id timestamp e x e1 :
  fetch_all_source_items rt fuel (limit args) e = (Some (Raise x), e1) ->
  main rt fuel args run_id timestamp e = (Some (Raise x), e1) /\
  report_file e1 = report_file e /\
  exists evs, trace e1 = trace e ++ evs /\
    Forall (fun a => is_sink_write (request_of a) = false) (attempts_of evs).
Proof.
  intros Hf. unfold main. rewrite Hf. split; [done|].
  apply fetch_all_source_items_run in Hf as (evs & [Htr Hrep] & Hreads).
  split; [done|]. exists evs. split; [done|].
  eapply Forall_impl; [exact Hreads|]. intros a. unfold is_source_read.
  by destruct (is_sink_write _).
Qed.

(** X13: a run without the dry-run flag never writes the report file,
    however it ends. *)
Theorem real_run_writes_no_report fuel args run_id timestamp e :
  dry_run args = false ->
  report_file (main rt fuel args run_id timestamp e).2 = report_file e.
Proof.
  intros Hdry. unfold main. rewrite Hdry.
  destruct (fetch_all_source_items rt fuel (limit args) e) as [r e1] eqn:Hf.
  apply fetch_all_source_items_run in Hf as (evs & [_ Hrep] & _).
  destruct r as [[items|x]|]; [|done..].
  destruct (upsert_sink_items_run rt items e1) as (evs2 & [_ Hrep2] & _).
  destruct (upsert_sink_items rt items e1) as [stats e2]. simpl in *. congruence.
Qed.

End RunFurther.

(** ** The demo API on its own *)

Section AppServer.

Implicit Types (st : App.State) (req : Request).

#[local] Instance by_external_id_total : Total App.by_external_id.
Proof. intros x y. apply String.leb_total. Qed.

(** X14: [sink_list] reports as count the number of stored records, which
    is the length of its listing; the listing is sorted by external id
    and holds exactly the stored values; and when every value sits under
    its own external id, each key appears in it exactly once. *)
Theorem sink_list_sorted_listing st :
  let r := App.sink_list st in
  r.1 = Z.of_nat (length r.2) /\
  r.1 = App.sink_count st /\
  Sorted App.by_external_id r.2 /\
  (forall v, v ∈ r.2 <-> exists k, App.SINK_ITEMS_BY_EXTERNAL_ID st !! k = Some v) /\
  (App.keyed st ->
     NoDup (map external_id r.2) /\
     forall k, k ∈ map external_id r.2 <->
               is_Some (App.SINK_ITEMS_BY_EXTERNAL_ID st !! k)).
Proof.
  unfold App.sink_list. cbn zeta. cbn [fst snd].
  set (m := App.SINK_ITEMS_BY_EXTERNAL_ID st).
  pose proof (merge_sort_Permutation App.by_external_id (map snd (map_to_list m))) as Hperm.
  assert (Hmem : forall v, v ∈ merge_sort App.by_external_id (map snd (map_to_list m)) <->
                           exists k, m !! k = Some v).
  { intros v. rewrite Hperm. change (map snd (map_to_list m)) with ((map_to_list m).*2).
    rewrite list_elem_of_fmap. split.
    - intros ([k v'] & -> & Hin). exists k. by apply elem_of_map_to_list.
    - intros (k & Hk). exists (k, v). split; [done|]. by apply elem_of_map_to_list. }
  split; [done|]. split.
  { unfold App.sink_count. fold m. f_equal.
    by rewrite Hperm, length_map, length_map_to_list. }
  split; [apply Sorted_merge_sort, _|]. split; [exact Hmem|].
  intros Hkeyed.
  assert (Hids : map external_id (merge_sort App.by_external_id (map snd (map_to_list m)))
                 ≡ₚ (map_to_list m).*1).
  { change (map external_id ?l) with (external_id <$> l). rewrite Hperm.
    change (map snd (map_to_list m)) with ((map_to_list m).*2).
    rewrite <- list_fmap_compose.
    assert ((external_id ∘ snd) <$> map_to_list m = (map_to_list m).*1) as ->; [|done].
    apply list_fmap_ext. intros i [k v] Hin. simpl.
    apply Hkeyed. apply elem_of_map_to_list. by eapply list_elem_of_lookup_2. }
  split.
  - rewrite Hids. apply NoDup_fst_map_to_list.
  - intros k. rewrite Hids. rewrite list_elem_of_fmap. split.
    + intros ([k' v] & -> & Hin). exists v. by apply elem_of_map_to_list.
    + intros [v Hv]. exists (k, v). split; [done|]. by apply elem_of_map_to_list.
Qed.

Lemma sink_upsert_cases payload key st :
  let calls := App.sink_write_calls st + 1 in
  (calls mod App.SINK_429_EVERY_N_CALLS = 0 /\
   App.sink_upsert payload key st =
     (App.http_exception 429 {[ "Retry-After" := "1" ]},
      {| App.SOURCE_ITEMS := App.SOURCE_ITEMS st;
         App.SINK_ITEMS_BY_EXTERNAL_ID := App.SINK_ITEMS_BY_EXTERNAL_ID st;
         App.FAIL_SOURCE_PAGE_2_ONCE := App.FAIL_SOURCE_PAGE_2_ONCE st;
         App.sink_write_calls := calls |})) \/
  (calls mod App.SINK_429_EVERY_N_CALLS <> 0 /\
   App.sink_upsert payload key st =
     (App.ok (JsonStatus
        (if bool_decide (App.SINK_ITEMS_BY_EXTERNAL_ID st !! external_id payload = None)
         then "created" else "updated")),
      {| App.SOURCE_ITEMS := App.SOURCE_ITEMS st;
         App.SINK_ITEMS_BY_EXTERNAL_ID :=
           <[external_id payload := payload]> (App.SINK_ITEMS_BY_EXTERNAL_ID st);
         App.FAIL_SOURCE_PAGE_2_ONCE := App.FAIL_SOURCE_PAGE_2_ONCE st;
         App.sink_write_calls := calls |})).
Proof.
  cbn zeta. unfold App.sink_upsert.
  destruct (Z.eqb_spec ((App.sink_write_calls st + 1) mod App.SINK_429_EVERY_N_CALLS) 0);
    [left|right]; by split.
Qed.

Lemma source_items_cases page limit st :
  (page = 2 /\ App.FAIL_SOURCE_PAGE_2_ONCE st = true /\
   App.source_items page limit st =
     (App.http_exception 500 ∅,
      {| App.SOURCE_ITEMS := App.SOURCE_ITEMS st;
         App.SINK_ITEMS_BY_EXTERNAL_ID := App.SINK_ITEMS_BY_EXTERNAL_ID st;
         App.FAIL_SOURCE_PAGE_2_ONCE := false;
         App.sink_write_calls := App.sink_write_calls st |})) \/
  ((page <> 2 \/ App.FAIL_SOURCE_PAGE_2_ONCE st = false) /\
   exists items cursor,
     App.source_items page limit st = (App.ok (JsonPage items cursor), st)).
Proof.
  unfold App.source_items.
  destruct (Z.eqb_spec page 2) as [->|Hp], (App.FAIL_SOURCE_PAGE_2_ONCE st) eqn:Hf; simpl.
  - by left.
  - right. split; [by right|]. by eexists _, _.
  - right. split; [by left|]. by eexists _, _.
  - right. split; [by left|]. by eexists _, _.
Qed.

(** X15: what a request can and cannot do to the server.  No request
    changes the source records.  A source read leaves the sink and its
    call counter alone; a sink write leaves the page-2 fault flag alone
    and counts as exactly one call.  The sink never shrinks, and every
    value stays stored under its own external id. *)
Theorem requests_respect_the_stores req st :
  let st' := (App.handle req st).2 in
  App.SOURCE_ITEMS st' = App.SOURCE_ITEMS st /\
  (is_source_read req = true ->
     App.SINK_ITEMS_BY_EXTERNAL_ID st' = App.SINK_ITEMS_BY_EXTERNAL_ID st /\
     App.sink_write_calls st' = App.sink_write_calls st) /\
  (is_sink_write req = true ->
     App.FAIL_SOURCE_PAGE_2_ONCE st' = App.FAIL_SOURCE_PAGE_2_ONCE st /\
     App.sink_write_calls st' = App.sink_write_calls st + 1) /\
  App.sink_count st <= App.sink_count st' /\
  (App.keyed st -> App.keyed st').
Proof.
  destruct req as [page limit|key payload]; cbn [App.handle].
  - destruct (source_items_cases page limit st)
      as [(_ & _ & ->)|(_ & items & cursor & ->)]; simpl; repeat split; done || lia.
  - destruct (sink_upsert_cases payload (Some key) st) as [(_ & ->)|(_ & ->)];
      simpl; repeat split; try done; try lia.
    + unfold App.sink_count. simpl. apply inj_le.
      rewrite <- !size_dom, dom_insert_L.
      apply subseteq_size. set_solver.
    + intros Hkeyed k v. simpl. rewrite lookup_insert.
      case_decide as Hk; [by intros [= <-]|apply Hkeyed].
Qed.

Lemma rate_limit_step (c : Z) :
  (c + 1) / 5 - c / 5 = if (c + 1) mod 5 =? 0 then 1 else 0.
Proof.
  destruct (Z.eqb_spec ((c + 1) mod 5) 0); Z.div_mod_to_equations; lia.
Qed.

(** X16: the rate-limit schedule.  However sink writes and source reads
    are interleaved, the call counter advances by the number of sink
    writes, and the number of 429 answers is the number of multiples of 5
    the counter passes: every fifth sink write since the counter was zero
    is refused, and no other request is. *)
Theorem rate_limit_schedule reqs st :
  let writes := Z.of_nat (length (filter (fun r => is_sink_write r = true) reqs)) in
  let r := App.replay reqs st in
  App.sink_write_calls r.2 = App.sink_write_calls st + writes /\
  Z.of_nat (App.count_status 429 r.1) =
    (App.sink_write_calls st + writes) / 5 - App.sink_write_calls st / 5.
Proof.
  revert st. induction reqs as [|[page limit|key payload] reqs IH]; intros st; cbn zeta.
  - simpl. split; [lia|]. by rewrite Z.add_0_r, Z.sub_diag.
  - cbn [App.replay].
    destruct (App.source_items page limit st) as [resp st1] eqn:Hs.
    destruct (IH st1) as [IHc IHn]. cbn zeta in IHc, IHn.
    destruct (App.replay reqs st1) as [resps st2]. cbn [fst snd] in *.
    assert (App.sink_write_calls st1 = App.sink_write_calls st /\ status_code resp <> 429)
      as [Hc Hst].
    { destruct (source_items_cases page limit st)
        as [(_ & _ & Hs')|(_ & items & cursor & Hs')];
        rewrite Hs' in Hs; by injection Hs as <- <-. }
    rewrite filter_cons_False by done.
    unfold App.count_status in *. rewrite filter_cons_False by done.
    rewrite IHc, IHn, Hc. done.
  - cbn [App.replay].
    destruct (App.sink_upsert payload (Some key) st) as [resp st1] eqn:Hs.
    destruct (IH st1) as [IHc IHn]. cbn zeta in IHc, IHn.
    destruct (App.replay reqs st1) as [resps st2]. cbn [fst snd] in *.
    rewrite filter_cons_True by done. cbn [length].
    pose proof (rate_limit_step (App.sink_write_calls st)) as Hstep.
    unfold App.count_status in *.
    rewrite Nat2Z.inj_succ.
    replace (App.sink_write_calls st +
             Z.succ (Z.of_nat (length (filter (fun r => is_sink_write r = true) reqs))))
      with (App.sink_write_calls st + 1 +
            Z.of_nat (length (filter (fun r => is_sink_write r = true) reqs))) by lia.
    destruct (sink_upsert_cases payload (Some key) st) as [(Hm & Hs')|(Hm & Hs')];
      rewrite Hs' in Hs; injection Hs as <- <-; simpl in IHc, IHn;
      unfold App.SINK_429_EVERY_N_CALLS in Hm.
    + rewrite filter_cons_True by done. cbn [length].
      rewrite Hm in Hstep. simpl in Hstep. split; lia.
    + rewrite filter_cons_False by done.
      apply Z.eqb_neq in Hm. rewrite Hm in Hstep. split; lia.
Qed.

(** X17: the page-2 fault fires at most once between resets.  In any
    sequence of requests at most one answer is a 500; there is none when
    the flag was already cleared; and every answer has status 200, 429
    or 500. *)
Theorem page_2_fails_at_most_once reqs st :
  let r := App.replay reqs st in
  (App.count_status 500 r.1 <= 1)%nat /\
  (App.FAIL_SOURCE_PAGE_2_ONCE st = false -> App.count_status 500 r.1 = 0%nat) /\
  Forall (fun resp => status_code resp = 200 \/ status_code resp = 429 \/
                      status_code resp = 500) r.1.
Proof.
  assert (Hoff : forall reqs st, App.FAIL_SOURCE_PAGE_2_ONCE st = false ->
                   App.count_status 500 (App.replay reqs st).1 = 0%nat).
  { clear. intros reqs. induction reqs as [|[page limit|key payload] reqs IH];
      intros st Hf; [done|..]; cbn [App.replay].
    - destruct (source_items_cases page limit st)
        as [(_ & Hon & _)|(_ & items & cursor & ->)]; [congruence|].
      specialize (IH st Hf). destruct (App.replay reqs st) as [resps st2].
      unfold App.count_status in *. cbn [fst] in *. by rewrite filter_cons_False.
    - destruct (sink_upsert_cases payload (Some key) st) as [(_ & ->)|(_ & ->)];
        match goal with |- context [App.replay reqs ?s] =>
          specialize (IH s Hf); destruct (App.replay reqs s) as [resps st2] end;
        unfold App.count_status in *; cbn [fst] in *; by rewrite filter_cons_False. }
  cbn zeta. split; [|split; [apply Hoff|]].
  - revert st. induction reqs as [|[page limit|key payload] reqs IH];
      intros st; [unfold App.count_status; simpl; lia|..]; cbn [App.replay].
    + destruct (source_items_cases page limit st)
        as [(_ & _ & ->)|(_ & items & cursor & ->)].
      * match goal with |- context [App.replay reqs ?s] =>
          pose proof (Hoff reqs s eq_refl) as H0;
          destruct (App.replay reqs s) as [resps st2] end.
        unfold App.count_status in *; cbn [fst] in *.
        rewrite filter_cons_True by done. simpl. lia.
      * specialize (IH st). destruct (App.replay reqs st) as [resps st2].
        unfold App.count_status in *; cbn [fst] in *. by rewrite filter_cons_False.
    + destruct (sink_upsert_cases payload (Some key) st) as [(_ & ->)|(_ & ->)];
        match goal with |- context [App.replay reqs ?s] =>
          specialize (IH s); destruct (App.replay reqs s) as [resps st2] end;
        unfold App.count_status in *; cbn [fst] in *; by rewrite filter_cons_False.
  - revert st. induction reqs as [|[page limit|key payload] reqs IH];
      intros st; [constructor|..]; cbn [App.replay].
    + destruct (source_items_cases page limit st)
        as [(_ & _ & ->)|(_ & items & cursor & ->)];
        match goal with |- context [App.replay reqs ?s] =>
          specialize (IH s); destruct (App.replay reqs s) as [resps st2] end;
        constructor; simpl; auto.
    + destruct (sink_upsert_cases payload (Some key) st) as [(_ & ->)|(_ & ->)];
        match goal with |- context [App.replay reqs ?s] =>
          specialize (IH s); destruct (App.replay reqs s) as [resps st2] end;
        constructor; simpl; auto.
Qed.

Lemma py_slice_window {A} (l : list A) (start n : Z) :
  0 <= start -> 0 <= n ->
  py_slice l start (start + n) = take (Z.to_nat n) (drop (Z.to_nat start) l).
Proof.
  intros Hstart Hn. unfold py_slice, clamp_index.
  destruct (Z.ltb_spec start 0); [lia|]. destruct (Z.ltb_spec (start + n) 0); [lia|].
  destruct (Z.le_gt_cases (Z.of_nat (length l)) start) as [Hbig|Hsmall].
  - rewrite (Z.min_r start), (Z.min_r (start + n)) by lia.
    rewrite !drop_ge by lia. by rewrite !take_nil.
  - rewrite (Z.min_l start) by lia.
    destruct (Z.le_gt_cases (start + n) (Z.of_nat (length l))).
    + rewrite Z.min_l by lia. f_equal. lia.
    + rewrite Z.min_r by lia. rewrite !take_ge; [done|rewrite length_drop; lia..].
Qed.

(** A source read on which the page-2 fault does not fire. *)
Lemma source_items_quiet page limit st :
  page <> 2 \/ App.FAIL_SOURCE_PAGE_2_ONCE st = false ->
  App.source_items page limit st =
    (App.ok (JsonPage
       (py_slice (App.SOURCE_ITEMS st) ((page - 1) * limit) ((page - 1) * limit + limit))
       (if (page - 1) * limit + limit <? Z.of_nat (length (App.SOURCE_ITEMS st))
        then Some (page + 1) else None)), st).
Proof.
  intros Hflag. unfold App.source_items.
  assert ((page =? 2) && App.FAIL_SOURCE_PAGE_2_ONCE st = false) as ->; [|done].
  destruct Hflag as [Hp| ->]; [|by rewrite andb_false_r].
  by apply Z.eqb_neq in Hp as ->.
Qed.

(** X18: how the source cuts its records into pages.  For a page number
    and a page size of at least 1, and unless the page-2 fault fires, the
    page holds the records from position [(page - 1) * limit] on, at most
    [limit] of them, the state is unchanged, and [next_page] is
    [page + 1] exactly when records remain after the page. *)
Theorem source_page_contents page limit st :
  1 <= page -> 1 <= limit ->
  page <> 2 \/ App.FAIL_SOURCE_PAGE_2_ONCE st = false ->
  App.source_items page limit st =
    (App.ok (JsonPage
       (take (Z.to_nat limit) (drop (Z.to_nat ((page - 1) * limit)) (App.SOURCE_ITEMS st)))
       (if page * limit <? Z.of_nat (length (App.SOURCE_ITEMS st))
        then Some (page + 1) else None)), st).
Proof.
  intros Hpage Hlimit Hflag. rewrite source_items_quiet by done.
  rewrite py_slice_window by nia.
  by replace ((page - 1) * limit + limit) with (page * limit) by lia.
Qed.

End AppServer.

(** ** The fetcher against the demo source *)

Section AppSource.

Context (parse : string -> option float) (draw : nat -> float)
        (fault : float -> option SleepFault).

(** [time.sleep] accepts the backoff delay of a first attempt. *)
Hypothesis backoff_sleeps : forall k, fault (first_backoff_delay (draw k)) = None.

Let rt : Runtime := App.runtime parse draw fault.

Implicit Types (e : Env rt) (limit : option Z).

(** One page through the executor: the page-2 fault, when it fires, is
    absorbed by one retry. *)
Lemma app_fetch_page p e :
  1 <= p ->
  let src := App.SOURCE_ITEMS (world e) in
  exists e',
    request_with_retries rt (GET_source_items p page_size) RetryPolicy_default e =
      (Return (App.ok (JsonPage
         (take 10 (drop (Z.to_nat ((p - 1) * 10)) src))
         (if p * 10 <? Z.of_nat (length src) then Some (p + 1) else None))), e') /\
    App.SOURCE_ITEMS (world e') = src /\
    App.SINK_ITEMS_BY_EXTERNAL_ID (world e') = App.SINK_ITEMS_BY_EXTERNAL_ID (world e) /\
    App.sink_write_calls (world e') = App.sink_write_calls (world e) /\
    report_file e' = report_file e.
Proof.
  intros Hp src. unfold request_with_retries.
  change (Z.to_nat (max_attempts RetryPolicy_default)) with 6%nat.
  rewrite retry_loop_S. unfold do_request at 1.
  change (client_request rt) with App.handle. cbn [App.handle]. unfold page_size.
  destruct (decide (p = 2 /\ App.FAIL_SOURCE_PAGE_2_ONCE (world e) = true)) as [[-> Hf]|Hno].
  - unfold App.source_items at 1. rewrite Hf.
    change ((2 =? 2) && true) with true. cbv iota.
    cbn [App.http_exception status_code headers].
    change (500 <? 400) with false.
    change (should_retry 500 && (1 <? max_attempts RetryPolicy_default)) with true.
    cbv iota.
    unfold bind at 1. unfold retry_sleep_s at 1. cbn [App.http_exception headers].
    rewrite lookup_empty.
    unfold backoff at 1. change (pow2_operand (1 - 1)) with (Some f_one). cbv iota.
    unfold bind at 1. unfold random at 1. cbn [draws].
    unfold ret at 1. unfold bind at 1. unfold time_sleep at 1.
    change (sleep_fault rt) with fault. change (random_random rt) with draw.
    change (fmul (py_min (max_delay_s RetryPolicy_default)
                    (fmul (base_delay_s RetryPolicy_default) f_one))
              (fadd f_half (draw (draws e))))
      with (first_backoff_delay (draw (draws e))).
    rewrite backoff_sleeps.
    rewrite retry_loop_S. unfold do_request at 1.
    change (client_request rt) with App.handle. cbn [App.handle emit world].
    rewrite source_items_quiet by by right.
    rewrite py_slice_window by lia.
    cbn [App.ok status_code]. change (200 <? 400) with true. cbv iota.
    eexists. split; [reflexivity|]. done.
  - rewrite source_items_quiet.
    + rewrite py_slice_window by lia.
      replace ((p - 1) * 10 + 10) with (p * 10) by lia.
      cbn [App.ok status_code]. change (200 <? 400) with true. cbv iota.
      eexists. split; [reflexivity|]. done.
    + destruct (decide (p = 2)) as [->|]; [|by left].
      right. destruct (App.FAIL_SOURCE_PAGE_2_ONCE (world e)); [by destruct Hno|done].
Qed.

Lemma truncate_take limit (l : list Item) (n : nat) :
  limit_is_count limit ->
  limit_reached limit (take n l) = true -> (n <= 1000)%nat ->
  truncate limit (take n l) = truncate limit (take 1000 l).
Proof.
  destruct limit as [c|]; [|done]. simpl. intros Hc Hreached Hn.
  apply Z.leb_le in Hreached. rewrite length_take in Hreached.
  rewrite !py_slice_to_take by done. rewrite !take_take. f_equal. lia.
Qed.

Lemma app_fetch_loop limit (n : nat) :
  limit_is_count limit ->
  forall p e fuel,
    1 <= p -> Z.of_nat n = 100 - p -> (n < fuel)%nat ->
    let src := App.SOURCE_ITEMS (world e) in
    exists items e',
      fetch_loop rt fuel limit (Some p) (take (Z.to_nat ((p - 1) * 10)) src) e =
        (Some (Return items), e') /\
      truncate limit items = truncate limit (take 1000 src) /\
      App.SOURCE_ITEMS (world e') = src /\
      App.SINK_ITEMS_BY_EXTERNAL_ID (world e') = App.SINK_ITEMS_BY_EXTERNAL_ID (world e) /\
      App.sink_write_calls (world e') = App.sink_write_calls (world e) /\
      report_file e' = report_file e.
Proof.
  intros Hcount. induction n as [|n IH]; intros p e [|fuel] Hp Hn Hfuel src; try lia.
  - (* page 100 *)
    assert (p = 100) as -> by lia.
    destruct (app_fetch_page 100 e Hp) as (e1 & Hreq & Hsrc & Hsink & Hcalls & Hrep).
    cbn [fetch_loop]. change (page_continues (Some 100)) with true. cbv iota.
    rewrite Hreq. cbn [body App.ok]. fold src.
    rewrite take_take_drop.
    change (Z.to_nat ((100 - 1) * 10) + 10)%nat with 1000%nat.
    destruct (limit_reached limit (take 1000 src)) eqn:Hl.
    { exists (take 1000 src), e1. by repeat split. }
    exists (take 1000 src), e1. split; [|by repeat split].
    destruct (100 * 10 <? Z.of_nat (length src)); [|by destruct fuel].
    by apply fetch_loop_done.
  - destruct (app_fetch_page p e Hp) as (e1 & Hreq & Hsrc & Hsink & Hcalls & Hrep).
    cbn [fetch_loop].
    assert (page_continues (Some p) = true) as ->.
    { unfold page_continues, max_pages. apply andb_true_iff. split.
      - apply negb_true_iff, Z.eqb_neq. lia.
      - apply Z.leb_le. lia. }
    rewrite Hreq. cbn [body App.ok]. fold src.
    rewrite take_take_drop.
    replace (Z.to_nat ((p - 1) * 10) + 10)%nat with (Z.to_nat (p * 10)) by lia.
    destruct (limit_reached limit (take (Z.to_nat (p * 10)) src)) eqn:Hl.
    { exists (take (Z.to_nat (p * 10)) src), e1.
      split; [done|]. split; [|by repeat split].
      apply truncate_take; [done|done|lia]. }
    destruct (Z.ltb_spec (p * 10) (Z.of_nat (length src))) as [Hmore|Hlast].
    + destruct (IH (p + 1) e1 fuel) as (items & e2 & Hloop & Htr & Hsrc2 & Hsink2 & Hcalls2 & Hrep2);
        [lia|lia|lia|].
      rewrite Hsrc in Hloop, Htr, Hsrc2. fold src in Hloop, Htr, Hsrc2.
      replace ((p + 1 - 1) * 10) with (p * 10) in Hloop by lia.
      exists items, e2. rewrite Hloop. repeat split; congruence.
    + exists (take (Z.to_nat (p * 10)) src), e1.
      split; [by destruct fuel|]. split; [|by repeat split].
      rewrite !take_ge by lia. done.
Qed.

(** The fetch against the demo source, in one equation. *)
Lemma app_fetch_all limit e fuel :
  limit_is_count limit -> (100 <= fuel)%nat ->
  exists e',
    fetch_all_source_items rt fuel limit e =
      (Some (Return (fetched_from (App.SOURCE_ITEMS (world e)) limit)), e') /\
    App.SOURCE_ITEMS (world e') = App.SOURCE_ITEMS (world e) /\
    App.SINK_ITEMS_BY_EXTERNAL_ID (world e') = App.SINK_ITEMS_BY_EXTERNAL_ID (world e) /\
    App.sink_write_calls (world e') = App.sink_write_calls (world e).
Proof.
  intros Hcount Hfuel.
  destruct (app_fetch_loop limit 99 Hcount 1 e fuel)
    as (items & e' & Hloop & Htr & Hsrc & Hsink & Hcalls & _); [lia|lia|lia|].
  change (take (Z.to_nat ((1 - 1) * 10)) (App.SOURCE_ITEMS (world e))) with (@nil Item) in Hloop.
  exists e'. split; [|done].
  rewrite (fetch_all_of_loop rt _ _ _ _ _ Hloop). do 3 f_equal.
  rewrite Htr. destruct limit as [l|]; [|done]. simpl in *.
  rewrite py_slice_to_take by done. by rewrite take_take.
Qed.

(** X19: pagination completeness against the demo source.  Whatever the
    records it holds and whether or not the page-2 fault is armed, a
    fetch with fuel for 100 pages returns the source's first 1000 records
    in order (all of them when there are at most 1000), cut to the limit
    when one is given; the source, the sink and the sink's call counter
    are as before. *)
Theorem fetch_from_demo_source limit e fuel :
  limit_is_count limit -> (100 <= fuel)%nat ->
  let src := App.SOURCE_ITEMS (world e) in
  exists e',
    fetch_all_source_items rt fuel limit e =
      (Some (Return (match limit with
                     | Some l => take (Z.to_nat l `min` 1000) src
                     | None => take 1000 src
                     end)), e') /\
    (length src <= 1000 -> take 1000 src = src)%nat /\
    App.SOURCE_ITEMS (world e') = src /\
    App.SINK_ITEMS_BY_EXTERNAL_ID (world e') = App.SINK_ITEMS_BY_EXTERNAL_ID (world e) /\
    App.sink_write_calls (world e') = App.sink_write_calls (world e) /\
    report_file e' = report_file e.
Proof.
  intros Hcount Hfuel src.
  destruct (app_fetch_loop limit 99 Hcount 1 e fuel)
    as (items & e' & Hloop & Htr & Hrest); [lia|lia|lia|].
  change (take (Z.to_nat ((1 - 1) * 10)) (App.SOURCE_ITEMS (world e))) with (@nil Item) in Hloop.
  fold src in Htr.
  exists e'. split; [|split; [apply take_ge|exact Hrest]].
  rewrite (fetch_all_of_loop rt _ _ _ _ _ Hloop). do 3 f_equal.
  rewrite Htr. destruct limit as [l|]; [|done]. simpl in *.
  rewrite py_slice_to_take by done. by rewrite take_take.
Qed.

End AppSource.

(** ** Whole runs against the demo API *)

Section AppRun.

#[local] Set Warnings "-clear-no-such-hyp".

Context (parse : string -> option float) (draw : nat -> float)
        (fault : float -> option SleepFault) (secs : float).

Hypothesis parse_hint : parse "1" = Some secs.
Hypothesis sleep_hint : fault secs = None.
Hypothesis backoff_sleeps : forall k, fault (first_backoff_delay (draw k)) = None.

Let rt : Runtime := App.runtime parse draw fault.

Implicit Types (e : Env rt) (it : Item).

(** One upsert through the executor, with what it leaves in the trace. *)
Lemma app_upsert_try_trace it e :
  exists e',
    upsert_try rt it e =
      (Return (if bool_decide (App.SINK_ITEMS_BY_EXTERNAL_ID (world e) !! external_id it = None)
               then "created" else "updated"), e') /\
    App.SINK_ITEMS_BY_EXTERNAL_ID (world e') =
      <[external_id it := payload_of it]> (App.SINK_ITEMS_BY_EXTERNAL_ID (world e)) /\
    App.SOURCE_ITEMS (world e') = App.SOURCE_ITEMS (world e) /\
    draws e' = draws e /\
    exists evs, advances e evs e' /\
      Forall (eq secs) (sleeps_of evs) /\
      (length (attempts_of evs) <= 2)%nat.
Proof.
  unfold upsert_try, bind, request_with_retries.
  change (Z.to_nat (max_attempts RetryPolicy_default)) with 6%nat.
  rewrite retry_loop_S. unfold do_request at 1.
  change (client_request rt) with App.handle. unfold upsert_request. cbn [App.handle].
  destruct (sink_upsert_cases (payload_of it) (Some (idempotency_key_of (payload_of it)))
              (world e)) as [(Hlim & ->)|(Hok & ->)].
  - cbn [App.http_exception status_code headers body].
    change (429 <? 400) with false.
    change (should_retry 429 && (1 <? max_attempts RetryPolicy_default)) with true.
    cbv iota.
    unfold bind at 1. unfold retry_sleep_s at 1.
    cbn [App.http_exception status_code headers body].
    rewrite lookup_singleton_eq.
    rewrite bool_decide_eq_false_2 by done.
    change (float_of_str rt) with parse. rewrite parse_hint.
    unfold ret at 1. unfold bind at 1. unfold time_sleep at 1.
    change (sleep_fault rt) with fault. rewrite sleep_hint.
    rewrite retry_loop_S. unfold do_request at 1.
    change (client_request rt) with App.handle. cbn [App.handle emit world].
    apply no_two_429_in_a_row in Hlim.
    rewrite sink_upsert_ok by exact Hlim.
    cbn [App.ok status_code body]. change (200 <? 400) with true. cbv iota.
    unfold json_status, ret. cbn [body App.ok]. eexists. split; [reflexivity|].
    unfold emit.
    cbn [world draws trace report_file App.SINK_ITEMS_BY_EXTERNAL_ID App.SOURCE_ITEMS
         external_id payload_of].
    repeat split. eexists [_; _; _]. split; [split|].
    + cbn [trace]. by rewrite <- !app_assoc.
    + done.
    + split; [|simpl; lia]. simpl. by constructor.
  - cbn [App.ok status_code body]. change (200 <? 400) with true. cbv iota.
    unfold json_status, ret. cbn [body App.ok]. eexists. split; [reflexivity|].
    cbn [world draws trace report_file App.SINK_ITEMS_BY_EXTERNAL_ID App.SOURCE_ITEMS
         external_id payload_of].
    repeat split. eexists [_]. split; [split|]; [done|done|].
    split; [constructor|simpl; lia].
Qed.

(** What reconciling leaves in the demo server. *)
Lemma app_reconcile_store items e :
  App.SINK_ITEMS_BY_EXTERNAL_ID (world (upsert_sink_items rt items e).2) =
    store_all (App.SINK_ITEMS_BY_EXTERNAL_ID (world e)) items /\
  failed_count (upsert_sink_items rt items e).1 = 0 /\
  App.SOURCE_ITEMS (world (upsert_sink_items rt items e).2) = App.SOURCE_ITEMS (world e).
Proof.
  revert e. induction items as [|it items IH]; intros e; [done|].
  rewrite upsert_sink_items_cons.
  destruct (app_upsert_try_trace it e) as (e1 & Htry & Hsink & Hsrc & _).
  rewrite Htry. cbn [fst snd].
  destruct (IH e1) as (Hstore & Hfailed & Hsrc2).
  split; [|split].
  - rewrite Hstore. unfold store_all. simpl. f_equal. exact Hsink.
  - cbn [stats_add failed_count tally]. case_bool_decide; simpl; lia.
  - etrans; [exact Hsrc2|exact Hsrc].
Qed.

(** X20: reconciling against the demo sink.  Every record goes through,
    with at most one retry each; the only sleeps are the sink's own
    [Retry-After] hint and no random backoff is drawn; the sink ends up
    holding the payloads stored in order, so that a later record with the
    same external id overwrites an earlier one; and the sink grows by
    exactly [created_count]. *)
Theorem reconcile_into_demo_sink items e :
  let r := upsert_sink_items rt items e in
  App.SINK_ITEMS_BY_EXTERNAL_ID (world r.2) =
    store_all (App.SINK_ITEMS_BY_EXTERNAL_ID (world e)) items /\
  created_count r.1 = App.sink_count (world r.2) - App.sink_count (world e) /\
  failed_count r.1 = 0 /\
  App.SOURCE_ITEMS (world r.2) = App.SOURCE_ITEMS (world e) /\
  draws r.2 = draws e /\
  exists evs, advances e evs r.2 /\
    Forall (eq secs) (sleeps_of evs) /\
    (length (attempts_of evs) <= 2 * length items)%nat.
Proof.
  revert e. induction items as [|it items IH]; intros e.
  - simpl. repeat split; try lia. exists []. split; [apply advances_refl|].
    split; [constructor|simpl; lia].
  - cbn zeta. rewrite upsert_sink_items_cons.
    destruct (app_upsert_try_trace it e)
      as (e1 & Htry & Hsink & Hsrc & Hdraws & evs1 & Hadv1 & Hsl1 & Hlen1).
    rewrite Htry. cbn [fst snd].
    destruct (IH e1) as (Hstore & Hcreated & Hfailed & Hsrc2 & Hdraws2 & evs2 & Hadv2 & Hsl2 & Hlen2).
    cbn zeta in *.
    split; [|split; [|split; [|split; [|split]]]].
    + by rewrite Hstore, Hsink.
    + cbn [stats_add created_count]. rewrite Hcreated.
      unfold App.sink_count. rewrite Hsink.
      destruct (App.SINK_ITEMS_BY_EXTERNAL_ID (world e) !! external_id it) as [v|] eqn:Hl.
      * rewrite bool_decide_eq_false_2 by done. cbn [created_count tally].
        rewrite bool_decide_eq_false_2 by done. cbn [created_count].
        rewrite map_size_insert_Some by by rewrite Hl. lia.
      * rewrite bool_decide_eq_true_2 by done. cbn [created_count tally].
        rewrite bool_decide_eq_true_2 by done. cbn [created_count].
        rewrite map_size_insert_None by done. lia.
    + cbn [stats_add failed_count tally]. case_bool_decide; simpl; lia.
    + congruence.
    + congruence.
    + exists (evs1 ++ evs2). split; [by eapply advances_trans|].
      rewrite sleeps_of_app, attempts_of_app, length_app. split.
      * by apply Forall_app.
      * simpl. lia.
Qed.

(** A real run against the demo API, in one equation. *)
Lemma app_real_run fuel args run_id timestamp e :
  limit_is_count (limit args) -> dry_run args = false -> (100 <= fuel)%nat ->
  let fetched := fetched_from (App.SOURCE_ITEMS (world e)) (limit args) in
  let r := main rt fuel args run_id timestamp e in
  r.1 = Some (Return 0) /\
  App.SINK_ITEMS_BY_EXTERNAL_ID (world r.2) =
    store_all (App.SINK_ITEMS_BY_EXTERNAL_ID (world e)) fetched /\
  App.SOURCE_ITEMS (world r.2) = App.SOURCE_ITEMS (world e).
Proof.
  intros Hcount Hdry Hfuel fetched r.
  destruct (app_fetch_all parse draw fault backoff_sleeps (limit args) e fuel
              Hcount Hfuel) as (e1 & Hfetch & Hsrc & Hsink & _).
  fold rt in Hfetch. fold fetched in Hfetch.
  destruct (app_reconcile_store fetched e1) as (Hstore & Hfailed & Hsrc2).
  assert (r = (Some (Return 0), (upsert_sink_items rt fetched e1).2)) as ->.
  { unfold r, main. rewrite Hfetch, Hdry.
    destruct (upsert_sink_items rt fetched e1) as [stats e2]. simpl in *.
    by rewrite Hfailed. }
  simpl. split; [done|]. split.
  - etrans; [exact Hstore|]. f_equal. exact Hsink.
  - etrans; [exact Hsrc2|exact Hsrc].
Qed.

Lemma dom_store_all (m : gmap string Item) items :
  dom (store_all m items) = dom m ∪ list_to_set (external_id <$> items).
Proof.
  revert m. induction items as [|it items IH]; intros m.
  - simpl. set_solver.
  - change (store_all m (it :: items))
      with (store_all (<[external_id it := payload_of it]> m) items).
    rewrite IH, dom_insert_L, fmap_cons, list_to_set_cons. set_solver.
Qed.

(** X21: a whole sync run against the demo API, with fuel for 100 pages
    and a limit that is absent or not negative.  The run exits with code
    0; the sink then holds what it held, overwritten by the payloads of
    the fetched records (the first 1000 source records, cut to the
    limit) stored in order; the source is unchanged.  Starting from an
    empty sink and distinct external ids, the sink's count is the number
    of fetched records. *)
Theorem sync_run_on_demo_api fuel args run_id timestamp e :
  limit_is_count (limit args) -> dry_run args = false -> (100 <= fuel)%nat ->
  let fetched := fetched_from (App.SOURCE_ITEMS (world e)) (limit args) in
  let r := main rt fuel args run_id timestamp e in
  r.1 = Some (Return 0) /\
  App.SINK_ITEMS_BY_EXTERNAL_ID (world r.2) =
    store_all (App.SINK_ITEMS_BY_EXTERNAL_ID (world e)) fetched /\
  App.SOURCE_ITEMS (world r.2) = App.SOURCE_ITEMS (world e) /\
  (App.SINK_ITEMS_BY_EXTERNAL_ID (world e) = ∅ ->
   NoDup (external_id <$> fetched) ->
   App.sink_count (world r.2) = Z.of_nat (length fetched)).
Proof.
  intros Hcount Hdry Hfuel fetched r.
  destruct (app_real_run fuel args run_id timestamp e Hcount Hdry Hfuel)
    as (Hcode & Hfinal & Hsrc).
  fold fetched in Hfinal. fold r in Hcode, Hfinal, Hsrc.
  split; [exact Hcode|]. split; [exact Hfinal|]. split; [exact Hsrc|].
  intros Hempty Hnodup. unfold App.sink_count. f_equal.
  rewrite Hfinal, Hempty, <- size_dom, dom_store_all, dom_empty_L.
  rewrite (left_id_L ∅ (∪)).
  rewrite size_list_to_set by done. by rewrite length_fmap.
Qed.


End AppRun.

(** ** Locating the repository root *)

Section RepoRoot.

Context (fs : FileSystem).
Implicit Types (p : Path) (n k : nat).

Lemma parent_fixed p : parent p = p <-> p = [].
Proof.
  unfold parent. split; [|by intros ->].
  intros H. apply (f_equal length) in H. rewrite length_take in H.
  destruct p; [done|]. simpl in H. lia.
Qed.

Lemma ancestor_parent k p : ancestor k (parent p) = ancestor (S k) p.
Proof. unfold ancestor. by rewrite Nat.iter_succ_r. Qed.

Lemma ancestor_root k : ancestor k [] = [].
Proof. induction k as [|k IH]; [done|]. unfold ancestor in *. simpl. by rewrite IH. Qed.

Lemma ancestor_take k p : ancestor k p = take (length p - k) p.
Proof.
  revert p. induction k as [|k IH]; intros p.
  - simpl. by rewrite Nat.sub_0_r, firstn_all.
  - rewrite <- ancestor_parent, IH. unfold parent.
    rewrite length_take, take_take. f_equal. lia.
Qed.

Lemma find_repo_root_loop_spec n p :
  match find_repo_root_loop fs n p with
  | Some r =>
      exists k, (k < n)%nat /\ r = ancestor k p /\ has_marker fs r = true /\
        forall j, (j < k)%nat -> has_marker fs (ancestor j p) = false
  | None => forall k, (k < n)%nat -> has_marker fs (ancestor k p) = false
  end.
Proof.
  revert p. induction n as [|n IH]; intros p; simpl; [lia|].
  destruct (path_exists fs (p ++ [".agent"])) eqn:Hm.
  - exists 0%nat. repeat split; [lia|done|lia].
  - case_bool_decide as Hroot.
    + apply parent_fixed in Hroot as ->. intros k _. by rewrite ancestor_root.
    + specialize (IH (parent p)). destruct (find_repo_root_loop fs n (parent p)) as [r|].
      * destruct IH as (k & Hk & -> & Hr & Hnone). exists (S k).
        rewrite <- ancestor_parent. repeat split; [lia|done|].
        intros [|j] Hj; [done|]. rewrite <- ancestor_parent. apply Hnone. lia.
      * intros [|k] Hk; [done|]. rewrite <- ancestor_parent. apply IH. lia.
Qed.

(** X23: [find_repo_root] returns the nearest directory holding [.agent]
    among the start path and its ancestors up to 9 levels above it, and
    the current working directory when none of these ten holds it, even
    if a directory further up does. *)
Theorem find_repo_root_nearest_marker (start_path : Path) :
  let r := find_repo_root fs start_path in
  (exists k, (k <= 9)%nat /\
     r = take (length start_path - k) start_path /\
     has_marker fs r = true /\
     forall j, (j < k)%nat ->
       has_marker fs (take (length start_path - j) start_path) = false) \/
  (r = cwd fs /\
   forall k, (k <= 9)%nat ->
     has_marker fs (take (length start_path - k) start_path) = false).
Proof.
  cbn zeta. unfold find_repo_root.
  pose proof (find_repo_root_loop_spec 10 start_path) as H.
  destruct (find_repo_root_loop fs 10 start_path) as [r|]; simpl.
  - left. destruct H as (k & Hk & -> & Hr & Hnone). exists k.
    rewrite <- ancestor_take. repeat split; [lia|done|].
    intros j Hj. rewrite <- ancestor_take. by apply Hnone.
  - right. split; [done|]. intros k Hk. rewrite <- ancestor_take. apply H. lia.
Qed.

End RepoRoot.

(** ** Instances of the further properties *)


Lemma no_budget_no_request_witness :
  let rt := scripted_runtime steady in
  let e := env0 rt [page_of [] None] in
  max_attempts no_budget <= 0 /\
  request_with_retries rt (GET_source_items 1 page_size) no_budget e
    = (Raise RuntimeError, e).
Proof.
  intros rt e. split; [by vm_compute|].
  apply (no_budget_no_request rt). by vm_compute.
Defined.

Lemma fetch_fails_fast_witness :
  let rt := scripted_runtime steady in
  let e := env0 rt [page_of [item_a] (Some 2); Return (plain_response 404)] in
  let e1 := (request_with_retries rt (GET_source_items 1 page_size)
               RetryPolicy_default e).2 in
  let r2 := request_with_retries rt (GET_source_items 2 page_size)
              RetryPolicy_default e1 in
  page_steps rt None e (Some 1) [] 1 e1 (Some 2) [item_a] /\
  page_continues (Some 2) = true /\
  r2.1 = Raise (HTTPStatusError (plain_response 404)) /\
  fetch_all_source_items rt 2 None e =
    (Some (Raise (HTTPStatusError (plain_response 404))), r2.2).
Proof.
  intros rt e e1 r2.
  assert (Hsteps : page_steps rt None e (Some 1) [] 1 e1 (Some 2) [item_a]).
  { eapply steps_more; [reflexivity|reflexivity|reflexivity|reflexivity|].
    apply steps_none. }
  split; [exact Hsteps|]. split; [reflexivity|]. split; [by vm_compute|].
  destruct (fetch_fails_fast rt None e 1 e1 2 [item_a] r2.1 r2.2 Hsteps eq_refl
              (surjective_pairing _)) as [Hraise _].
  apply (Hraise (HTTPStatusError (plain_response 404))); by vm_compute.
Defined.

Lemma fetch_ends_at_bad_cursor_witness :
  let rt := scripted_runtime steady in
  let e := env0 rt [page_of [item_a] (Some 0); page_of [item_b] None] in
  let e1 := (request_with_retries rt (GET_source_items 1 page_size)
               RetryPolicy_default e).2 in
  page_steps rt None e (Some 1) [] 1 e1 (Some 0) [item_a] /\
  fetch_all_source_items rt (1 + 5) None e = (Some (Return [item_a]), e1).
Proof.
  intros rt e e1.
  assert (Hsteps : page_steps rt None e (Some 1) [] 1 e1 (Some 0) [item_a]).
  { eapply steps_more; [reflexivity|reflexivity|reflexivity|reflexivity|].
    apply steps_none. }
  split; [exact Hsteps|].
  apply (fetch_ends_at_bad_cursor rt None e 1 e1 (Some 0) [item_a] 5 Hsteps).
  right. by left.
Defined.

Lemma fetch_with_nonpositive_limit_witness :
  let rt := scripted_runtime steady in
  let e := env0 rt [page_of [item_a; item_b] (Some 2)] in
  let r := request_with_retries rt (GET_source_items 1 page_size)
             RetryPolicy_default e in
  -1 <= 0 /\
  r.1 = Return (App.ok (JsonPage [item_a; item_b] (Some 2))) /\
  fetch_all_source_items rt 1 (Some (-1)) e = (Some (Return [item_a]), r.2).
Proof.
  intros rt e r. split; [lia|]. split; [by vm_compute|].
  apply (fetch_with_nonpositive_limit rt (-1) e
           (App.ok (JsonPage [item_a; item_b] (Some 2))) r.2
           [item_a; item_b] (Some 2) 0); [lia|reflexivity|reflexivity].
Defined.

Lemma upsert_one_classifies_witness :
  let rt := scripted_runtime steady in
  let e := env0 rt [Return (App.ok (JsonStatus "deleted"))] in
  let r := request_with_retries rt (upsert_request item_a) RetryPolicy_default e in
  r.1 = Return (App.ok (JsonStatus "deleted")) /\
  upsert_one rt item_a stats_zero e =
    ({| created_count := 0 + 0; updated_count := 0 + 1; failed_count := 0 + 0 |}, r.2).
Proof.
  intros rt e r. split; [by vm_compute|].
  destruct (upsert_one_classifies rt item_a stats_zero e r.1 r.2 (surjective_pairing _))
    as (_ & Hupdated & _).
  apply (Hupdated (App.ok (JsonStatus "deleted")) "deleted");
    [by vm_compute|reflexivity|discriminate].
Defined.

Lemma exit_code_is_0_or_2_witness :
  let rt := scripted_runtime steady in
  let e := env0 rt [page_of [item_a] None; Return (plain_response 404)] in
  let r := main rt 1 real_run "run" "now" e in
  r.1 = Some (Return 2) /\ (2 = 0 \/ 2 = 2).
Proof.
  intros rt e r.
  assert (Hr : r.1 = Some (Return 2)) by by vm_compute.
  split; [exact Hr|].
  destruct (exit_code_is_0_or_2 rt 1 real_run "run" "now" e 2 r.2) as [Hcode _];
    [|exact Hcode].
  rewrite <- Hr. apply surjective_pairing.
Defined.

Lemma failed_fetch_aborts_run_witness :
  let rt := scripted_runtime steady in
  let e := env0 rt [Return (plain_response 404)] in
  let f := fetch_all_source_items rt 1 None e in
  f.1 = Some (Raise (HTTPStatusError (plain_response 404))) /\
  main rt 1 real_run "run" "now" e =
    (Some (Raise (HTTPStatusError (plain_response 404))), f.2).
Proof.
  intros rt e f.
  assert (Hf : f.1 = Some (Raise (HTTPStatusError (plain_response 404))))
    by by vm_compute.
  split; [exact Hf|].
  destruct (failed_fetch_aborts_run rt 1 real_run "run" "now" e
              (HTTPStatusError (plain_response 404)) f.2) as [Hmain _];
    [|exact Hmain].
  rewrite <- Hf. apply surjective_pairing.
Defined.

Lemma real_run_writes_no_report_witness :
  let rt := scripted_runtime steady in
  let e := env0 rt [page_of [item_a] None; Return (App.ok (JsonStatus "created"))] in
  dry_run real_run = false /\
  report_file (main rt 1 real_run "run" "now" e).2 = report_file e.
Proof.
  intros rt e. split; [reflexivity|].
  by apply (real_run_writes_no_report rt).
Defined.

Lemma source_page_contents_witness :
  let st := App.seed_source App.initial in
  1 <= 3 /\ 1 <= 10 /\ (3 <> 2 \/ App.FAIL_SOURCE_PAGE_2_ONCE st = false) /\
  App.source_items 3 10 st =
    (App.ok (JsonPage (take 10 (drop 20 (App.SOURCE_ITEMS st))) None), st).
Proof.
  intros st. split; [lia|]. split; [lia|]. split; [by left|].
  apply (source_page_contents 3 10 st); [lia|lia|by left].
Defined.

Lemma steady_backoff_sleeps (k : nat) :
  cpython_sleep_fault (first_backoff_delay (steady k)) = None.
Proof. reflexivity. Defined.

Lemma fetch_from_demo_source_witness :
  let e := env0 demo_app_runtime (App.seed_source App.initial) in
  limit_is_count (Some 5) /\ (100 <= 100)%nat /\
  exists e',
    fetch_all_source_items demo_app_runtime 100 (Some 5) e =
      (Some (Return (take (Z.to_nat 5 `min` 1000) (App.SOURCE_ITEMS (world e)))), e').
Proof.
  intros e. split; [simpl; lia|]. split; [lia|].
  destruct (fetch_from_demo_source float_of_int_literal steady cpython_sleep_fault
              steady_backoff_sleeps (Some 5) e 100) as (e' & Hfetch & _);
    [simpl; lia|lia|].
  by exists e'.
Defined.

Lemma reconcile_into_demo_sink_witness :
  let e := env0 demo_app_runtime App.initial in
  let r := upsert_sink_items demo_app_runtime [item_a; item_b; item_a] e in
  float_of_int_literal "1" = Some f_one /\
  cpython_sleep_fault f_one = None /\
  created_count r.1 = App.sink_count (world r.2) - App.sink_count (world e).
Proof.
  intros e r. split; [reflexivity|]. split; [reflexivity|].
  destruct (reconcile_into_demo_sink float_of_int_literal steady cpython_sleep_fault
              f_one eq_refl eq_refl [item_a; item_b; item_a] e) as (_ & Hcreated & _).
  exact Hcreated.
Defined.

Lemma sync_run_on_demo_api_witness :
  let e := env0 demo_app_runtime (App.seed_source App.initial) in
  float_of_int_literal "1" = Some f_one /\
  cpython_sleep_fault f_one = None /\
  limit_is_count (limit real_run) /\ dry_run real_run = false /\ (100 <= 100)%nat /\
  (main demo_app_runtime 100 real_run "run" "now" e).1 = Some (Return 0).
Proof.
  intros e. split; [reflexivity|]. split; [reflexivity|].
  split; [exact I|]. split; [reflexivity|]. split; [lia|].
  destruct (sync_run_on_demo_api float_of_int_literal steady cpython_sleep_fault
              f_one eq_refl eq_refl steady_backoff_sleeps 100 real_run "run" "now" e)
    as (Hcode & _); [exact I|reflexivity|lia|].
  exact Hcode.
Defined.


(** ** What the sink holds after a run *)

Lemma store_all_snoc (m : gmap string Item) items it :
  store_all m (items ++ [it]) = <[external_id it := payload_of it]> (store_all m items).
Proof. unfold store_all. by rewrite foldl_snoc. Qed.

Lemma latest_snoc items it k :
  latest (items ++ [it]) k = if decide (external_id it = k) then Some it else latest items k.
Proof. unfold latest. by rewrite foldl_snoc. Qed.

Lemma store_all_lookup (m : gmap string Item) items k :
  store_all m items !! k =
    match latest items k with
    | Some it => Some (payload_of it)
    | None => m !! k
    end.
Proof.
  induction items as [|it items IH] using rev_ind; [done|].
  rewrite store_all_snoc, latest_snoc, lookup_insert.
  destruct (decide (external_id it = k)); [done|exact IH].
Qed.

Lemma store_all_twice (m : gmap string Item) items :
  store_all (store_all m items) items = store_all m items.
Proof.
  apply map_eq. intros k. rewrite store_all_lookup.
  destruct (latest items k) as [it|] eqn:Hl; [|done].
  by rewrite store_all_lookup, Hl.
Qed.

Section AppRunTwice.

Context (parse : string -> option float) (draw : nat -> float)
        (fault : float -> option SleepFault) (secs : float).

Hypothesis parse_hint : parse "1" = Some secs.
Hypothesis sleep_hint : fault secs = None.
Hypothesis backoff_sleeps : forall k, fault (first_backoff_delay (draw k)) = None.

Let rt : Runtime := App.runtime parse draw fault.

Implicit Types (e : Env rt).

(** X24: last writer wins.  After reconciling [items] against the demo
    sink, the record stored under an external id is the payload of the
    last record of [items] carrying that id, and what the sink held
    before under any id that no record of [items] carries. *)
Theorem reconciled_sink_lookup items e k :
  App.SINK_ITEMS_BY_EXTERNAL_ID (world (upsert_sink_items rt items e).2) !! k =
    match latest items k with
    | Some it => Some (payload_of it)
    | None => App.SINK_ITEMS_BY_EXTERNAL_ID (world e) !! k
    end.
Proof.
  destruct (app_reconcile_store parse draw fault secs parse_hint sleep_hint items e)
    as (Hstore & _).
  fold rt in Hstore. rewrite <- store_all_lookup.
  by f_equal.
Qed.

(** X25: a second sync run with the same arguments against the
    unreset demo API exits with code 0 and leaves the sink's content
    exactly as the first run left it, record for record. *)
Theorem second_sync_run_changes_nothing fuel args id1 ts1 id2 ts2 e :
  limit_is_count (limit args) -> dry_run args = false -> (100 <= fuel)%nat ->
  let first := main rt fuel args id1 ts1 e in
  let second := main rt fuel args id2 ts2 first.2 in
  first.1 = Some (Return 0) /\ second.1 = Some (Return 0) /\
  App.SINK_ITEMS_BY_EXTERNAL_ID (world second.2) =
    App.SINK_ITEMS_BY_EXTERNAL_ID (world first.2).
Proof.
  intros Hcount Hdry Hfuel first second.
  destruct (app_real_run parse draw fault secs parse_hint sleep_hint
              backoff_sleeps fuel args id1 ts1 e Hcount Hdry Hfuel)
    as (Hcode1 & Hsink1 & Hsrc1).
  destruct (app_real_run parse draw fault secs parse_hint sleep_hint
              backoff_sleeps fuel args id2 ts2 first.2 Hcount Hdry Hfuel)
    as (Hcode2 & Hsink2 & _).
  cbn zeta in *. split; [exact Hcode1|]. split; [exact Hcode2|].
  etrans; [exact Hsink2|].
  etrans; [|symmetry; exact Hsink1].
  etrans; [|apply store_all_twice].
  f_equal; [exact Hsink1|]. f_equal. exact Hsrc1.
Qed.

End AppRunTwice.

Lemma reconciled_sink_lookup_witness :
  let e := env0 demo_app_runtime App.initial in
  let items := [item_a; item_b; mkItem "a" "A2" 7] in
  float_of_int_literal "1" = Some f_one /\
  cpython_sleep_fault f_one = None /\
  App.SINK_ITEMS_BY_EXTERNAL_ID (world (upsert_sink_items demo_app_runtime items e).2) !! "a"
    = Some (mkItem "a" "A2" 7).
Proof.
  intros e items. split; [reflexivity|]. split; [reflexivity|].
  exact (reconciled_sink_lookup float_of_int_literal steady cpython_sleep_fault f_one
           eq_refl eq_refl items e "a").
Defined.

Lemma second_sync_run_changes_nothing_witness :
  let e := env0 demo_app_runtime (App.seed_source App.initial) in
  let first := main demo_app_runtime 100 real_run "run1" "t1" e in
  let second := main demo_app_runtime 100 real_run "run2" "t2" first.2 in
  float_of_int_literal "1" = Some f_one /\
  cpython_sleep_fault f_one = None /\
  limit_is_count (limit real_run) /\ dry_run real_run = false /\ (100 <= 100)%nat /\
  App.SINK_ITEMS_BY_EXTERNAL_ID (world second.2) =
    App.SINK_ITEMS_BY_EXTERNAL_ID (world first.2).
Proof.
  intros e first second. split; [reflexivity|]. split; [reflexivity|].
  split; [exact I|]. split; [reflexivity|]. split; [lia|].
  destruct (second_sync_run_changes_nothing float_of_int_literal steady
              cpython_sleep_fault f_one eq_refl eq_refl steady_backoff_sleeps
              100 real_run "run1" "t1" "run2" "t2" e) as (_ & _ & Hsame);
    [exact I|reflexivity|lia|].
  exact Hsame.
Defined.
